(** * Plots.py: simulated survey table and its three regression plots

    The script draws nine arrays from NumPy's global legacy generator,
    stores seven of them in a pandas DataFrame and hands that frame to
    three seaborn plot calls.  NumPy, pandas, seaborn and matplotlib are
    external libraries: the script is embedded as a program over their
    calls (a free monad with Python exceptions), and the libraries are
    interfaces ([NumpyRandom], [PlotLib]) whose documented contracts appear
    as hypotheses of the theorems that need them.  Floating-point values
    are kept behind the [Arith] interface, instantiated with IEEE binary64
    (what the script runs on, through Rocq's primitive floats and their
    specification in SpecFloat) and with exact rationals. *)

From Stdlib Require Import ZArith QArith Lia Lqa.
From Stdlib Require Import Floats Numbers.Cyclic.Int63.Uint63.
From stdpp Require Import base option list strings gmap.

Set Default Proof Using "Type".
Local Open Scope Z_scope.

(** ** Python results *)

Inductive Exn : Type :=
| ValueError (msg : string)
| KeyError (key : string).

Inductive Result (A : Type) : Type :=
| Ok (a : A)
| Raised (e : Exn).
Arguments Ok {A} a.
Arguments Raised {A} e.

Definition result_bind {A B} (r : Result A) (f : A → Result B) : Result B :=
  match r with
  | Ok a => f a
  | Raised e => Raised e
  end.

Definition result_map {A B} (f : A → B) (r : Result A) : Result B :=
  result_bind r (λ a, Ok (f a)).

(** ** Arithmetic of float64 arrays

    [of_int] is the int64 to float64 conversion NumPy applies when an
    integer array meets a float scalar; [lit m e] is the value of the
    decimal literal [m * 10^-e] of the source text. *)

Class Arith (F : Type) : Type := {
  fadd : F → F → F;
  fmul : F → F → F;
  fneg : F → F;
  of_int : Z → F;
  lit : Z → nat → F;
}.

(** IEEE binary64, the arithmetic of Python floats and float64 arrays.
    [b64_of_int] converts an int64, exactly up to 2^53 in magnitude and
    rounded above. *)
Definition b64_of_int (z : Z) : float :=
  if z =? - 2 ^ 63 then PrimFloat.opp (PrimFloat.mul (of_uint63 (of_Z (2 ^ 62))) two)
  else if z <? 0 then PrimFloat.opp (of_uint63 (of_Z (- z)))
  else of_uint63 (of_Z z).

(** A decimal literal is read as the correctly rounded quotient of two
    exactly representable integers. *)
Definition b64_lit (m : Z) (e : nat) : float :=
  PrimFloat.div (b64_of_int m) (b64_of_int (10 ^ Z.of_nat e)).

#[export] Instance binary64 : Arith float := {|
  fadd := PrimFloat.add;
  fmul := PrimFloat.mul;
  fneg := PrimFloat.opp;
  of_int := b64_of_int;
  lit := b64_lit;
|}.

(** Exact rational arithmetic: the same expressions without rounding. *)
Definition Q_lit (m : Z) (e : nat) : Q := Qmake m (Z.to_pos (10 ^ Z.of_nat e)).

#[export] Instance exact : Arith Q := {|
  fadd := Qplus;
  fmul := Qmult;
  fneg := Qopp;
  of_int := inject_Z;
  lit := Q_lit;
|}.

(** ** IEEE binary64 values as integers

    Every finite binary64 number is an integer multiple of 2^-1074, the
    smallest subnormal.  [ival] maps a float to that multiple and the
    infinities to plus or minus 2^2098, the first power of two above all
    finite values; rounding is then a function on integers. *)

(** Round to nearest, ties to even, of [M / 2^k]. *)
Definition rne (M k : Z) : Z :=
  let q := M / 2 ^ k in
  let r := M mod 2 ^ k in
  if (2 ^ k <? 2 * r) || ((2 * r =? 2 ^ k) && Z.odd q) then q + 1 else q.

(** The value of the infinities, in units of 2^-1074. *)
Definition INF : Z := 2 ^ 2098.

(** The binary64 number nearest to [N * 2^-t] units, for [0 < N]: the
    53 leading bits of [N] are kept, or fewer below the unit. *)
Definition round_units (t N : Z) : Z :=
  let sh := Z.max (Z.log2 N - 52) t in
  Z.min (rne N sh * 2 ^ (sh - t)) INF.

Definition round_signed (t N : Z) : Z :=
  match N with
  | Z0 => 0
  | Zpos _ => round_units t N
  | Zneg p => - round_units t (Zpos p)
  end.

Definition ival (x : spec_float) : Z :=
  match x with
  | S754_zero _ => 0
  | S754_infinity s => cond_Zopp s INF
  | S754_nan => 0
  | S754_finite s m e => cond_Zopp s (Zpos m * 2 ^ (e + 1074))
  end.

(** What [k] right shifts leave of [M]: the quotient, the round bit and
    the sticky bit. *)
Definition shr_inv (M k : Z) (mrs : shr_record) : Prop :=
  shr_m mrs = M / 2 ^ k ∧
  (shr_r mrs = true ↔ 2 ^ k ≤ 2 * (M mod 2 ^ k)) ∧
  (shr_s mrs = true ↔ M mod 2 ^ k ≠ 0 ∧ 2 * (M mod 2 ^ k) ≠ 2 ^ k).

Definition finite_or_zero (x : spec_float) : Prop :=
  match x with
  | S754_zero _ | S754_finite _ _ _ => True
  | _ => False
  end.

(** A binary64 number (not NaN) of magnitude at most [2^k]. *)
Definition within (k : Z) (x : spec_float) : Prop :=
  valid_binary x = true ∧ x ≠ S754_nan ∧ Z.abs (ival x) ≤ 2 ^ (k + 1074).

(** An array entry that is a number of magnitude at most 2^1000: far
    beyond anything a normal sampler with the script's parameters
    returns. *)
Definition moderate (x : float) : Prop := (abs x <=? 0x1p1000)%float = true.

(** The values an int64 array holds. *)
Definition int64 (z : Z) : Prop := - 2 ^ 63 ≤ z < 2 ^ 63.

(** ** pandas: columns and frames *)

Inductive Column (F : Type) : Type :=
| IntCol (xs : list Z)
| FloatCol (xs : list F).
Arguments IntCol {F} xs.
Arguments FloatCol {F} xs.

Definition col_len {F} (c : Column F) : nat :=
  match c with
  | IntCol xs => length xs
  | FloatCol xs => length xs
  end.

Record DataFrame (F : Type) : Type := {
  columns : gmap string (Column F);
  nrows : nat;
}.
Arguments columns {F} d.
Arguments nrows {F} d.

(** [df.shape]: (number of rows, number of columns). *)
Definition shape {F} (df : DataFrame F) : nat * nat :=
  (nrows df, size (columns df)).

(** The invariant of a pandas frame: every column has one entry per row. *)
Definition frame_ok {F} (df : DataFrame F) : Prop :=
  map_Forall (λ _ c, col_len c = nrows df) (columns df).

(** A dict display [{k1: v1, ..., kn: vn}]: later keys overwrite earlier ones. *)
Definition py_dict {V} (items : list (string * V)) : gmap string V :=
  foldl (λ d kv, <[kv.1 := kv.2]> d) ∅ items.

(** [pd.DataFrame(dict of arrays)]: raises when the arrays differ in length. *)
Definition pd_DataFrame {F} (d : gmap string (Column F)) : Result (DataFrame F) :=
  match map_to_list d with
  | [] => Ok {| columns := d; nrows := 0 |}
  | (_, c) :: _ =>
      if decide (map_Forall (λ _ c', col_len c' = col_len c) d)
      then Ok {| columns := d; nrows := col_len c |}
      else Raised (ValueError "All arrays must be of the same length")
  end.

(** ** NumPy array expressions *)

Section Arrays.
Context {F : Type} `{!Arith F}.

(** [c * a] for a float scalar and an int64 array. *)
Definition np_scale_int (c : F) (a : list Z) : list F :=
  (λ z, fmul c (of_int z)) <$> a.

(** [c * a] for a float scalar and a float64 array. *)
Definition np_scale (c : F) (a : list F) : list F :=
  fmul c <$> a.

(** [a + b] for two one-dimensional float64 arrays, with broadcasting of
    a length-one operand. *)
Definition np_add (a b : list F) : Result (list F) :=
  if decide (length a = length b) then Ok (zip_with fadd a b)
  else match a, b with
       | [x], _ => Ok (fadd x <$> b)
       | _, [y] => Ok ((λ x, fadd x y) <$> a)
       | _, _ => Raised (ValueError "operands could not be broadcast together")
       end.
End Arrays.

(** ** The library interfaces

    [np.random] is NumPy's global legacy generator: [seed] re-initialises
    it from the seed alone, every sampler reads and advances it.  Argument
    validation ([low >= high], negative [scale], [p] outside [0,1]) is not
    modelled: the script passes valid constants only. *)

Class NumpyRandom (F : Type) : Type := {
  RandomState : Type;
  rs_seed : Z → RandomState;
  rs_randint : Z → Z → nat → RandomState → list Z * RandomState;
  rs_normal : F → F → nat → RandomState → list F * RandomState;
  rs_binomial : Z → F → nat → RandomState → list Z * RandomState;
}.

(** Keyword arguments of [sns.lmplot] and [sns.regplot] as the script
    passes them. *)
Record LmplotArgs (F : Type) : Type := {
  lm_x : string;
  lm_y : string;
  lm_hue : string;
  lm_palette : string;
  lm_aspect : F;
  lm_scatter_alpha : F;
}.
Arguments lm_x {F} _.
Arguments lm_y {F} _.
Arguments lm_hue {F} _.
Arguments lm_palette {F} _.
Arguments lm_aspect {F} _.
Arguments lm_scatter_alpha {F} _.

Record RegplotArgs (F : Type) : Type := {
  reg_x : string;
  reg_y : string;
  reg_scatter_alpha : F;
}.
Arguments reg_x {F} _.
Arguments reg_y {F} _.
Arguments reg_scatter_alpha {F} _.

Inductive PltCall : Type :=
| plt_title (s : string)
| plt_xlabel (s : string)
| plt_ylabel (s : string)
| plt_tight_layout
| plt_show
| plt_figure (width height : Z).

(** seaborn and pyplot act on the display and may raise.  The frame is
    passed by reference ([data=df]): a plot function returns the content
    of that frame object after the call, so a library that wrote to the
    frame would be visible through [df] afterwards. *)
Class PlotLib (F : Type) : Type := {
  Display : Type;
  lib_lmplot : LmplotArgs F → DataFrame F → Display → Result (DataFrame F * Display);
  lib_regplot : RegplotArgs F → DataFrame F → Display → Result (DataFrame F * Display);
  lib_pyplot : PltCall → Display → Result Display;
}.

(** ** Programs over library calls *)

Inductive Call (F : Type) : Type → Type :=
| np_random_seed (s : Z) : Call F unit
| np_random_randint (low high : Z) (size : nat) : Call F (list Z)
| np_random_normal (loc scale : F) (size : nat) : Call F (list F)
| np_random_binomial (k : Z) (p : F) (size : nat) : Call F (list Z)
| sns_lmplot (data : DataFrame F) (args : LmplotArgs F) : Call F (DataFrame F)
| sns_regplot (data : DataFrame F) (args : RegplotArgs F) : Call F (DataFrame F)
| plt (c : PltCall) : Call F unit.
Arguments np_random_seed {F} s.
Arguments np_random_randint {F} low high size.
Arguments np_random_normal {F} loc scale size.
Arguments np_random_binomial {F} k p size.
Arguments sns_lmplot {F} data args.
Arguments sns_regplot {F} data args.
Arguments plt {F} c.

Inductive Prog (F : Type) (A : Type) : Type :=
| Ret (a : A)
| Raise (e : Exn)
| Vis {X : Type} (c : Call F X) (k : X → Prog F A).
Arguments Ret {F A} a.
Arguments Raise {F A} e.
Arguments Vis {F A X} c k.

Fixpoint prog_bind {F A B} (p : Prog F A) (f : A → Prog F B) : Prog F B :=
  match p with
  | Ret a => f a
  | Raise e => Raise e
  | Vis c k => Vis c (λ x, prog_bind (k x) f)
  end.

Definition call {F X} (c : Call F X) : Prog F X := Vis c Ret.

Definition lift {F A} (r : Result A) : Prog F A :=
  match r with
  | Ok a => Ret a
  | Raised e => Raise e
  end.

Notation "x ←' p ; q" := (prog_bind p (λ x, q))
  (at level 20, p at level 100, q at level 200, right associativity,
   format "'[v' x  ←'  p ;  '/' q ']'").
Notation "p ;;' q" := (prog_bind p (λ _, q))
  (at level 100, q at level 200, right associativity,
   format "'[v' p  ;;'  '/' q ']'").

(** One library call observed together with the generator state it met. *)
Definition Event (F : Type) : Type := sigT (Call F).

(** ** Running a program against the libraries *)

Section Run.
Context {F : Type} `{!NumpyRandom F} `{!PlotLib F}.

Record World : Type := {
  rng : RandomState;
  display : Display;
}.

Definition handle {X} (c : Call F X) (w : World) : Result (X * World) :=
  match c in Call _ X return Result (X * World) with
  | np_random_seed s =>
      Ok (tt, {| rng := rs_seed s; display := display w |})
  | np_random_randint low high size =>
      let '(xs, g) := rs_randint low high size (rng w) in
      Ok (xs, {| rng := g; display := display w |})
  | np_random_normal loc scale size =>
      let '(xs, g) := rs_normal loc scale size (rng w) in
      Ok (xs, {| rng := g; display := display w |})
  | np_random_binomial k p size =>
      let '(xs, g) := rs_binomial k p size (rng w) in
      Ok (xs, {| rng := g; display := display w |})
  | sns_lmplot data args =>
      result_map (λ '(data', d), (data', {| rng := rng w; display := d |}))
                 (lib_lmplot args data (display w))
  | sns_regplot data args =>
      result_map (λ '(data', d), (data', {| rng := rng w; display := d |}))
                 (lib_regplot args data (display w))
  | plt c =>
      result_map (λ d, (tt, {| rng := rng w; display := d |}))
                 (lib_pyplot c (display w))
  end.

Fixpoint run {A} (p : Prog F A) (w : World) : Result (A * World) :=
  match p with
  | Ret a => Ok (a, w)
  | Raise e => Raised e
  | Vis c k =>
      match handle c w with
      | Ok (x, w') => run (k x) w'
      | Raised e => Raised e
      end
  end.

(** The calls a run issues, in order, each with the generator state
    it starts from. *)
Fixpoint trace {A} (p : Prog F A) (w : World) : list (Event F * RandomState) :=
  match p with
  | Ret _ | Raise _ => []
  | Vis c k =>
      (existT _ c, rng w) ::
      match handle c w with
      | Ok (x, w') => trace (k x) w'
      | Raised _ => []
      end
  end.

(** What a run returns, forgetting the final world. *)
Definition value_of {A} (r : Result (A * World)) : Result A :=
  result_map fst r.
End Run.
Arguments World F {_ _}.

(** ** Plots.py *)

Module Plots.
Section Script.
Context {F : Type} `{!Arith F}.
Local Open Scope string_scope.

(** Line 8. *)
Definition n : nat := 1000.

(** The arrays bound by lines 11 to 28. *)
Record Vars : Type := {
  EDUCP_A : list Z;
  POVRATTC_A : list F;
  DIBEV_A : list Z;
  HYPEV_A : list Z;
  ObjectiveHealth : list F;
  PHSTAT_A : list Z;
  PHQCAT_A : list Z;
  LSATIS4_A : list Z;
  PerceivedHealth : list F;
}.

(** Line 17 up to the noise: [0.48 * DIBEV_A + 0.61 * HYPEV_A]. *)
Definition ObjectiveHealth_signal (DIBEV_A HYPEV_A : list Z) : Result (list F) :=
  np_add (np_scale_int (lit 48 2) DIBEV_A) (np_scale_int (lit 61 2) HYPEV_A).

(** Lines 24 to 26:
    [-0.48 * ObjectiveHealth + -0.28 * POVRATTC_A + 0.01 * EDUCP_A]. *)
Definition PerceivedHealth_signal
    (ObjectiveHealth POVRATTC_A : list F) (EDUCP_A : list Z) : Result (list F) :=
  result_bind
    (np_add (np_scale (fneg (lit 48 2)) ObjectiveHealth)
            (np_scale (fneg (lit 28 2)) POVRATTC_A))
    (λ s, np_add s (np_scale_int (lit 1 2) EDUCP_A)).

(** Lines 23 to 28 as a function of the array the noise draw returned. *)
Definition PerceivedHealth_of
    (ObjectiveHealth POVRATTC_A : list F) (EDUCP_A : list Z) (noise : list F)
    : Result (list F) :=
  result_bind (PerceivedHealth_signal ObjectiveHealth POVRATTC_A EDUCP_A)
              (λ s, np_add s noise).

(** Lines 7 to 28.  Python evaluates the operands of [+] left to right, so
    each noise array is drawn after the sum to its left is computed. *)
Definition simulate : Prog F Vars :=
  call (np_random_seed 42) ;;'
  EDUCP_A ←' call (np_random_randint 1 5 n);
  POVRATTC_A ←' call (np_random_normal (of_int 2) (lit 5 1) n);
  DIBEV_A ←' call (np_random_binomial 1 (lit 1 1) n);
  HYPEV_A ←' call (np_random_binomial 1 (lit 2 1) n);
  signal ←' lift (ObjectiveHealth_signal DIBEV_A HYPEV_A);
  noise ←' call (np_random_normal (of_int 0) (lit 5 1) n);
  ObjectiveHealth ←' lift (np_add signal noise);
  PHSTAT_A ←' call (np_random_randint 1 6 n);
  PHQCAT_A ←' call (np_random_randint 0 4 n);
  LSATIS4_A ←' call (np_random_randint 1 5 n);
  signal' ←' lift (PerceivedHealth_signal ObjectiveHealth POVRATTC_A EDUCP_A);
  noise' ←' call (np_random_normal (of_int 0) (lit 5 1) n);
  PerceivedHealth ←' lift (np_add signal' noise');
  Ret {| EDUCP_A := EDUCP_A; POVRATTC_A := POVRATTC_A;
         DIBEV_A := DIBEV_A; HYPEV_A := HYPEV_A;
         ObjectiveHealth := ObjectiveHealth;
         PHSTAT_A := PHSTAT_A; PHQCAT_A := PHQCAT_A; LSATIS4_A := LSATIS4_A;
         PerceivedHealth := PerceivedHealth |}.

(** Lines 31 to 39. *)
Definition df (v : Vars) : Result (DataFrame F) :=
  pd_DataFrame (py_dict [
    ("EDUCP_A", IntCol (EDUCP_A v));
    ("POVRATTC_A", FloatCol (POVRATTC_A v));
    ("ObjectiveHealth", FloatCol (ObjectiveHealth v));
    ("PerceivedHealth", FloatCol (PerceivedHealth v));
    ("PHSTAT_A", IntCol (PHSTAT_A v));
    ("PHQCAT_A", IntCol (PHQCAT_A v));
    ("LSATIS4_A", IntCol (LSATIS4_A v))
  ]).

(** The Data Simulator: lines 7 to 39. *)
Definition generate : Prog F (DataFrame F) :=
  v ←' simulate;
  lift (df v).

(** Lines 42 to 50. *)
Definition plot1 : LmplotArgs F :=
  {| lm_x := "POVRATTC_A"; lm_y := "ObjectiveHealth"; lm_hue := "EDUCP_A";
     lm_palette := "viridis"; lm_aspect := lit 15 1;
     lm_scatter_alpha := lit 3 1 |}.

(** Lines 59 to 64. *)
Definition plot2 : RegplotArgs F :=
  {| reg_x := "ObjectiveHealth"; reg_y := "PerceivedHealth";
     reg_scatter_alpha := lit 3 1 |}.

(** Lines 72 to 80. *)
Definition plot3 : LmplotArgs F :=
  {| lm_x := "POVRATTC_A"; lm_y := "PerceivedHealth"; lm_hue := "EDUCP_A";
     lm_palette := "coolwarm"; lm_aspect := lit 15 1;
     lm_scatter_alpha := lit 3 1 |}.

(** The Visualizer: lines 42 to 85.  The result is the content of the
    frame object [df] when the last call has returned. *)
Definition visualize (df : DataFrame F) : Prog F (DataFrame F) :=
  df ←' call (sns_lmplot df plot1);
  call (plt (plt_title "SES Indicators and Objective Health with Regression Lines")) ;;'
  call (plt (plt_xlabel "Poverty Ratio (POVRATTC_A)")) ;;'
  call (plt (plt_ylabel "Objective Health (latent)")) ;;'
  call (plt plt_tight_layout) ;;'
  call (plt plt_show) ;;'
  call (plt (plt_figure 8 5)) ;;'
  df ←' call (sns_regplot df plot2);
  call (plt (plt_title "Objective Health Predicting Perceived Health")) ;;'
  call (plt (plt_xlabel "Objective Health")) ;;'
  call (plt (plt_ylabel "Perceived Health")) ;;'
  call (plt plt_tight_layout) ;;'
  call (plt plt_show) ;;'
  df ←' call (sns_lmplot df plot3);
  call (plt (plt_title "SES Indicators and Perceived Health with Regression Lines")) ;;'
  call (plt (plt_xlabel "Poverty Ratio (POVRATTC_A)")) ;;'
  call (plt (plt_ylabel "Perceived Health (latent)")) ;;'
  call (plt plt_tight_layout) ;;'
  call (plt plt_show) ;;'
  Ret df.

(** The whole script. *)
Definition script : Prog F (DataFrame F) :=
  df ←' generate;
  visualize df.
End Script.
Arguments Vars F : clear implicits.
End Plots.

(** ** Stream positions

    The order of generator calls as the specification lists it (after the
    seeding call), and the generator state reached after the first [k] of
    these calls.  The trace of [Plots.generate] is compared with it. *)

Section Positions.
Context {F : Type} `{!Arith F} `{!NumpyRandom F}.

Definition draw_order : list (Event F) := [
  existT _ (np_random_seed 42);
  existT _ (np_random_randint 1 5 Plots.n);                     (* EDUCP_A *)
  existT _ (np_random_normal (of_int 2) (lit 5 1) Plots.n);     (* POVRATTC_A *)
  existT _ (np_random_binomial 1 (lit 1 1) Plots.n);            (* DIBEV_A *)
  existT _ (np_random_binomial 1 (lit 2 1) Plots.n);            (* HYPEV_A *)
  existT _ (np_random_normal (of_int 0) (lit 5 1) Plots.n);     (* noise of ObjectiveHealth *)
  existT _ (np_random_randint 1 6 Plots.n);                     (* PHSTAT_A *)
  existT _ (np_random_randint 0 4 Plots.n);                     (* PHQCAT_A *)
  existT _ (np_random_randint 1 5 Plots.n);                     (* LSATIS4_A *)
  existT _ (np_random_normal (of_int 0) (lit 5 1) Plots.n)      (* noise of PerceivedHealth *)
].

(** The generator state a call leaves behind. *)
Definition advance (g : RandomState) (e : Event F) : RandomState :=
  match projT2 e with
  | np_random_seed s => rs_seed s
  | np_random_randint low high size => (rs_randint low high size g).2
  | np_random_normal loc scale size => (rs_normal loc scale size g).2
  | np_random_binomial k p size => (rs_binomial k p size g).2
  | _ => g
  end.

(** State after the first [k] calls of [draw_order], started from [g]. *)
Definition pos (k : nat) (g : RandomState) : RandomState :=
  foldl advance g (take k draw_order).

(** Each call of [draw_order] paired with the state it starts from. *)
Definition schedule (g : RandomState) : list (Event F * RandomState) :=
  imap (λ k e, (e, pos k g)) draw_order.

(** The two noise arrays, drawn at positions 5 and 9. *)
Definition ObjectiveHealth_noise (g : RandomState) : list F :=
  (rs_normal (of_int 0) (lit 5 1) Plots.n (pos 5 g)).1.

Definition PerceivedHealth_noise (g : RandomState) : list F :=
  (rs_normal (of_int 0) (lit 5 1) Plots.n (pos 9 g)).1.

(** The arrays of [Plots.simulate] read off the stream: each one is the
    draw made at its own position, or computed from such draws. *)
Definition drawn_at (g : RandomState) (v : Plots.Vars F) : Prop :=
  Plots.EDUCP_A v = (rs_randint 1 5 Plots.n (pos 1 g)).1 ∧
  Plots.POVRATTC_A v = (rs_normal (of_int 2) (lit 5 1) Plots.n (pos 2 g)).1 ∧
  Plots.DIBEV_A v = (rs_binomial 1 (lit 1 1) Plots.n (pos 3 g)).1 ∧
  Plots.HYPEV_A v = (rs_binomial 1 (lit 2 1) Plots.n (pos 4 g)).1 ∧
  result_bind (Plots.ObjectiveHealth_signal (Plots.DIBEV_A v) (Plots.HYPEV_A v))
              (λ s, np_add s (ObjectiveHealth_noise g))
    = Ok (Plots.ObjectiveHealth v) ∧
  Plots.PHSTAT_A v = (rs_randint 1 6 Plots.n (pos 6 g)).1 ∧
  Plots.PHQCAT_A v = (rs_randint 0 4 Plots.n (pos 7 g)).1 ∧
  Plots.LSATIS4_A v = (rs_randint 1 5 Plots.n (pos 8 g)).1 ∧
  Plots.PerceivedHealth_of (Plots.ObjectiveHealth v) (Plots.POVRATTC_A v)
                           (Plots.EDUCP_A v) (PerceivedHealth_noise g)
    = Ok (Plots.PerceivedHealth v).
End Positions.

(** ** Library contracts

    What the NumPy, seaborn and matplotlib documentation promises and the
    theorems below rely on. *)

Section Contracts.
Context {F : Type} `{!NumpyRandom F} `{!PlotLib F}.

(** [size=k] yields an array of [k] entries. *)
Definition numpy_sizes : Prop :=
  (∀ low high k g, length (rs_randint low high k g).1 = k) ∧
  (∀ loc scale k g, length (rs_normal loc scale k g).1 = k) ∧
  (∀ m p k g, length (rs_binomial m p k g).1 = k).

(** [randint(low, high)] draws from the half-open interval [low, high);
    [binomial(m, p)] counts successes among [m] trials. *)
Definition numpy_ranges : Prop :=
  (∀ low high k g, low < high →
     Forall (λ x, low ≤ x < high) (rs_randint low high k g).1) ∧
  (∀ m p k g, 0 ≤ m → Forall (λ x, 0 ≤ x ≤ m) (rs_binomial m p k g).1).

(** seaborn reads [data] and does not write to it. *)
Definition plots_read_only : Prop :=
  (∀ a data d data' d', lib_lmplot a data d = Ok (data', d') → data' = data) ∧
  (∀ a data d data' d', lib_regplot a data d = Ok (data', d') → data' = data).

(** The columns a plot call names. *)
Definition lmplot_inputs (a : LmplotArgs F) (data : DataFrame F)
    : option (Column F) * option (Column F) * option (Column F) :=
  (columns data !! lm_x a, columns data !! lm_y a, columns data !! lm_hue a).

Definition regplot_inputs (a : RegplotArgs F) (data : DataFrame F)
    : option (Column F) * option (Column F) :=
  (columns data !! reg_x a, columns data !! reg_y a).

(** seaborn draws every well-formed, non-empty frame in which the named
    columns exist; the rendering backend does not fail. *)
Definition plots_complete : Prop :=
  (∀ a data d, frame_ok data → (0 < nrows data)%nat →
     is_Some (columns data !! lm_x a) → is_Some (columns data !! lm_y a) →
     is_Some (columns data !! lm_hue a) →
     ∃ r, lib_lmplot a data d = Ok r) ∧
  (∀ a data d, frame_ok data → (0 < nrows data)%nat →
     is_Some (columns data !! reg_x a) → is_Some (columns data !! reg_y a) →
     ∃ r, lib_regplot a data d = Ok r).

(** pyplot's title, label, layout, figure and show calls do not fail. *)
Definition pyplot_complete : Prop :=
  ∀ c d, ∃ d', lib_pyplot c d = Ok d'.
End Contracts.

(** ** What the Visualizer does with the table *)

Section Frames.
Context {F : Type} `{!Arith F}.
Local Open Scope string_scope.

(** The frame a plot call is handed as [data]. *)
Definition plot_data (e : Event F) : option (DataFrame F) :=
  match projT2 e with
  | sns_lmplot data _ | sns_regplot data _ => Some data
  | _ => None
  end.

(** Programs that hand the frame [d] to every plot call they make, go on
    with the frame as that call left it, and return it at the end. *)
Inductive Keeps (d : DataFrame F) : Prog F (DataFrame F) → Prop :=
| Keeps_Ret : Keeps d (Ret d)
| Keeps_Raise e : Keeps d (Raise e)
| Keeps_lmplot a k : Keeps d (k d) → Keeps d (Vis (sns_lmplot d a) k)
| Keeps_regplot a k : Keeps d (k d) → Keeps d (Vis (sns_regplot d a) k)
| Keeps_plt c k : Keeps d (k tt) → Keeps d (Vis (plt c) k).

(** The columns the three plots need, with their types. *)
Definition required_columns (d : DataFrame F) : Prop :=
  (∃ xs, columns d !! "POVRATTC_A" = Some (FloatCol xs)) ∧
  (∃ xs, columns d !! "ObjectiveHealth" = Some (FloatCol xs)) ∧
  (∃ xs, columns d !! "PerceivedHealth" = Some (FloatCol xs)) ∧
  (∃ xs, columns d !! "EDUCP_A" = Some (IntCol xs)).

(** Two tables that differ at most in PHSTAT_A, PHQCAT_A and LSATIS4_A. *)
Definition same_but_unplotted (d1 d2 : DataFrame F) : Prop :=
  nrows d1 = nrows d2 ∧
  ∀ name, name ∉ ["PHSTAT_A"; "PHQCAT_A"; "LSATIS4_A"] →
          columns d1 !! name = columns d2 !! name.

(** Strict decrease, as a predicate on an arithmetic and its order: among
    the rows of one table that agree on POVRATTC_A, EDUCP_A and the noise
    draw, a higher ObjectiveHealth gives a strictly lower PerceivedHealth. *)
Definition decreasing_in_ObjectiveHealth (lt : F → F → Prop) : Prop :=
  ∀ (OH POV : list F) (E : list Z) (noise PH : list F) (i j : nat)
    (oi oj pi pj : F),
    length POV = length OH → length E = length OH → length noise = length OH →
    Plots.PerceivedHealth_of OH POV E noise = Ok PH →
    OH !! i = Some oi → OH !! j = Some oj →
    POV !! i = POV !! j → E !! i = E !! j → noise !! i = noise !! j →
    PH !! i = Some pi → PH !! j = Some pj →
    lt oi oj → lt pj pi.

(** The same with "never higher" in place of "strictly lower". *)
Definition never_increasing_in_ObjectiveHealth (lt : F → F → Prop) : Prop :=
  ∀ (OH POV : list F) (E : list Z) (noise PH : list F) (i j : nat)
    (oi oj pi pj : F),
    length POV = length OH → length E = length OH → length noise = length OH →
    Plots.PerceivedHealth_of OH POV E noise = Ok PH →
    OH !! i = Some oi → OH !! j = Some oj →
    POV !! i = POV !! j → E !! i = E !! j → noise !! i = noise !! j →
    PH !! i = Some pi → PH !! j = Some pj →
    lt oi oj → ¬ lt pi pj.
End Frames.
Arguments numpy_sizes F {_}.
Arguments numpy_ranges F {_}.
Arguments plots_read_only F {_}.
Arguments plots_complete F {_}.
Arguments pyplot_complete F {_}.

(** ** The health scores as functions of the draws *)

Section Scores.
Context {F : Type} `{!Arith F}.

(** Line 17 as a function of the array the noise draw returned. *)
Definition ObjectiveHealth_of (DIBEV_A HYPEV_A : list Z) (noise : list F)
    : Result (list F) :=
  result_bind (Plots.ObjectiveHealth_signal DIBEV_A HYPEV_A) (λ s, np_add s noise).
End Scores.

(** ** The calls of the Visualizer *)

Section Calls.
Context {F : Type} `{!Arith F} `{!NumpyRandom F} `{!PlotLib F}.
Local Open Scope string_scope.

(** The calls of lines 42 to 85 on the frame [d], in source order. *)
Definition plot_calls (d : DataFrame F) : list (Event F) := [
  existT _ (sns_lmplot d Plots.plot1);
  existT _ (plt (plt_title "SES Indicators and Objective Health with Regression Lines"));
  existT _ (plt (plt_xlabel "Poverty Ratio (POVRATTC_A)"));
  existT _ (plt (plt_ylabel "Objective Health (latent)"));
  existT _ (plt plt_tight_layout);
  existT _ (plt plt_show);
  existT _ (plt (plt_figure 8 5));
  existT _ (sns_regplot d Plots.plot2);
  existT _ (plt (plt_title "Objective Health Predicting Perceived Health"));
  existT _ (plt (plt_xlabel "Objective Health"));
  existT _ (plt (plt_ylabel "Perceived Health"));
  existT _ (plt plt_tight_layout);
  existT _ (plt plt_show);
  existT _ (sns_lmplot d Plots.plot3);
  existT _ (plt (plt_title "SES Indicators and Perceived Health with Regression Lines"));
  existT _ (plt (plt_xlabel "Poverty Ratio (POVRATTC_A)"));
  existT _ (plt (plt_ylabel "Perceived Health (latent)"));
  existT _ (plt plt_tight_layout);
  existT _ (plt plt_show)
].

(** The first [k] calls of [l], each met in generator state [g]. *)
Definition issued (k : nat) (l : list (Event F)) (g : RandomState)
    : list (Event F * RandomState) :=
  (λ e, (e, g)) <$> take k l.

(** The call [ev] raises [e] when the generator is in state [g] and the
    display shows [disp]. *)
Definition raises_at (ev : Event F) (g : RandomState) (disp : Display) (e : Exn)
    : Prop :=
  handle (projT2 ev) {| rng := g; display := disp |} = Raised e.

(** [p] makes the calls [l], in this order and none besides.  A run that
    returns has made them all and left the generator where it was; a run
    that raises has stopped at the call that raised. *)
Definition issues {A} (p : Prog F A) (l : list (Event F)) : Prop :=
  ∀ w : World F,
    (∀ a w', run p w = Ok (a, w') →
       trace p w = issued (length l) l (rng w) ∧ rng w' = rng w) ∧
    (∀ e, run p w = Raised e →
       ∃ k ev disp, l !! k = Some ev ∧ raises_at ev (rng w) disp e ∧
                    trace p w = issued (S k) l (rng w)).

(** [p] runs to its end whatever the display shows. *)
Definition completes {A} (p : Prog F A) : Prop :=
  ∀ w : World F, ∃ r, run p w = Ok r.



End Calls.

(** ** Reference implementations of the interfaces

    A small generator and a recording plot backend that satisfy the
    contracts above.  They stand in for the libraries wherever a theorem
    is run on concrete data; the generator is a linear congruential
    stream, not NumPy's Mersenne Twister. *)

Module Ref.
Definition lcg_next (s : Z) : Z := (1664525 * s + 1013904223) mod 2 ^ 32.

(** [size] successive outputs of the stream, each mapped through [f]. *)
Fixpoint draws {A} (f : Z → A) (size : nat) (s : Z) : list A * Z :=
  match size with
  | O => ([], s)
  | S k =>
      let s' := lcg_next s in
      let '(xs, s'') := draws f k s' in
      (f s' :: xs, s'')
  end.

Definition high_bits (u : Z) : Z := u / 2 ^ 16.

#[export] Instance generator {F} `{!Arith F} : NumpyRandom F := {|
  RandomState := Z;
  rs_seed s := s mod 2 ^ 32;
  rs_randint low high size :=
    draws (λ u, low + high_bits u mod (high - low)) size;
  rs_normal loc scale size :=
    draws (λ u, fadd loc (fmul scale (of_int (high_bits u mod 7 - 3)))) size;
  rs_binomial m p size :=
    draws (λ u, high_bits u mod (m + 1)) size;
|}.

(** What the recording backend has been asked to draw. *)
Inductive Artist (F : Type) : Type :=
| Facets (x y hue : Column F) (palette : string)
| Regression (x y : Column F)
| Decoration (c : PltCall).
Arguments Facets {F} x y hue palette.
Arguments Regression {F} x y.
Arguments Decoration {F} c.

Definition lookup_column {F} (data : DataFrame F) (name : string) : Result (Column F) :=
  match columns data !! name with
  | Some c => Ok c
  | None => Raised (KeyError name)
  end.

#[export] Instance backend {F} : PlotLib F := {|
  Display := list (Artist F);
  lib_lmplot a data d :=
    result_bind (lookup_column data (lm_x a)) (λ x,
    result_bind (lookup_column data (lm_y a)) (λ y,
    result_bind (lookup_column data (lm_hue a)) (λ h,
    Ok (data, d ++ [Facets x y h (lm_palette a)]))));
  lib_regplot a data d :=
    result_bind (lookup_column data (reg_x a)) (λ x,
    result_bind (lookup_column data (reg_y a)) (λ y,
    Ok (data, d ++ [Regression x y])));
  lib_pyplot c d := Ok (d ++ [Decoration c]);
|}.

(** A fresh interpreter: unseeded generator, empty display. *)
Definition world0 {F} `{!Arith F} : World F := {| rng := 0; display := [] |}.

(** An interpreter that has been used before. *)
Definition world1 {F} `{!Arith F} : World F :=
  {| rng := 2026; display := [Decoration plt_show] |}.

(** A two-row table with the seven columns of the script, and the same
    table with other entries in PHSTAT_A, PHQCAT_A and LSATIS4_A. *)
Definition survey (phstat phqcat lsatis : list Z) : DataFrame float :=
  {| columns := py_dict [
       ("EDUCP_A", IntCol [2; 4]);
       ("POVRATTC_A", FloatCol [two; one]);
       ("ObjectiveHealth", FloatCol [zero; one]);
       ("PerceivedHealth", FloatCol [one; zero]);
       ("PHSTAT_A", IntCol phstat);
       ("PHQCAT_A", IntCol phqcat);
       ("LSATIS4_A", IntCol lsatis)
     ]%string;
     nrows := 2 |}.

Definition table1 : DataFrame float := survey [1; 5] [0; 3] [4; 1].
Definition table2 : DataFrame float := survey [3; 3] [2; 2] [1; 1].

(** A backend that records like [backend] and has no display to show a
    figure on: [plt.show()] raises. *)
Definition headless {F} : PlotLib F := {|
  Display := list (Artist F);
  lib_lmplot := @lib_lmplot F backend;
  lib_regplot := @lib_regplot F backend;
  lib_pyplot c d :=
    match c with
    | plt_show => Raised (ValueError "no display")
    | _ => Ok (d ++ [Decoration c])
    end;
|}.

(** A fresh interpreter on that backend. *)
Definition world_headless {F} `{!Arith F} : @World F generator headless :=
  @Build_World F generator headless 0 [].


End Ref.

(** * Properties *)

Arguments Plots.n : simpl never.

(** ** Results and array expressions *)

Lemma result_bind_Ok {A B} (r : Result A) (f : A → Result B) (b : B) :
  result_bind r f = Ok b ↔ ∃ a, r = Ok a ∧ f a = Ok b.
Proof.
  destruct r as [a|e]; simpl; split.
  - eauto.
  - by intros (a' & [= <-] & ?).
  - discriminate.
  - by intros (a' & ? & _).
Qed.

Section ArrayLemmas.
Context {F : Type} `{!Arith F}.
Implicit Types a b c : list F.

Lemma length_np_scale_int (k : F) (zs : list Z) :
  length (np_scale_int k zs) = length zs.
Proof. apply length_fmap. Qed.

Lemma length_np_scale (k : F) a : length (np_scale k a) = length a.
Proof. apply length_fmap. Qed.

Lemma np_add_same_length a b :
  length a = length b → np_add a b = Ok (zip_with fadd a b).
Proof. intros Hlen. unfold np_add. by rewrite decide_True. Qed.

Lemma length_zip_with_same a b :
  length a = length b → length (zip_with fadd a b) = length a.
Proof. intros Hlen. rewrite length_zip_with. lia. Qed.

Lemma lookup_np_scale_int (k : F) (zs : list Z) i :
  np_scale_int k zs !! i = (λ z, fmul k (of_int z)) <$> zs !! i.
Proof. apply list_lookup_fmap. Qed.

Lemma lookup_np_scale (k : F) a i :
  np_scale k a !! i = fmul k <$> a !! i.
Proof. apply list_lookup_fmap. Qed.

Lemma lookup_zip_with_Some_2 a b i x y :
  a !! i = Some x → b !! i = Some y → zip_with fadd a b !! i = Some (fadd x y).
Proof. intros Ha Hb. rewrite lookup_zip_with, Ha. simpl. by rewrite Hb. Qed.
End ArrayLemmas.

(** ** pandas *)

Section FrameLemmas.
Context {F : Type}.
Implicit Types d : gmap string (Column F).

Lemma pd_DataFrame_uniform d k :
  d ≠ ∅ → map_Forall (λ _ c, col_len c = k) d →
  pd_DataFrame d = Ok {| columns := d; nrows := k |}.
Proof.
  intros Hne Hall. unfold pd_DataFrame.
  destruct (map_to_list d) as [|[name c] l] eqn:Hl.
  - by apply map_to_list_empty_iff in Hl.
  - assert (d !! name = Some c) as Hc.
    { apply elem_of_map_to_list. rewrite Hl. left. }
    assert (col_len c = k) as -> by exact (Hall _ _ Hc).
    by rewrite decide_True.
Qed.

Lemma pd_DataFrame_Ok d df :
  pd_DataFrame d = Ok df → columns df = d ∧ frame_ok df.
Proof.
  unfold pd_DataFrame.
  destruct (map_to_list d) as [|[name c] l] eqn:Hl.
  - intros [= <-]. split; [done|]. apply map_to_list_empty_iff in Hl as ->.
    apply map_Forall_empty.
  - case_decide as Hall; [|discriminate]. by intros [= <-].
Qed.
End FrameLemmas.

(** ** Running programs *)

Section RunLemmas.
Context {F : Type} `{!NumpyRandom F} `{!PlotLib F}.

Lemma run_bind {A B} (p : Prog F A) (f : A → Prog F B) (w : World F) :
  run (prog_bind p f) w = result_bind (run p w) (λ '(a, w'), run (f a) w').
Proof.
  revert w. induction p as [a|e|X c k IH]; intros w; simpl; [done..|].
  destruct (handle c w) as [[x w']|e]; simpl; [apply IH|done].
Qed.

Lemma trace_bind {A B} (p : Prog F A) (f : A → Prog F B) (w : World F) :
  trace (prog_bind p f) w =
  trace p w ++ match run p w with
               | Ok (a, w') => trace (f a) w'
               | Raised _ => []
               end.
Proof.
  revert w. induction p as [a|e|X c k IH]; intros w; simpl; [done..|].
  f_equal. destruct (handle c w) as [[x w']|e]; simpl; [apply IH|done].
Qed.

Lemma run_call {X} (c : Call F X) (w : World F) : run (call c) w = handle c w.
Proof. simpl. by destruct (handle c w) as [[x w']|e]. Qed.

Lemma trace_call {X} (c : Call F X) (w : World F) :
  trace (call c) w = [(existT _ c, rng w)].
Proof. simpl. by destruct (handle c w) as [[x w']|e]. Qed.

Lemma run_lift {A} (r : Result A) (w : World F) :
  run (lift r) w = result_map (λ a, (a, w)) r.
Proof. by destruct r. Qed.

Lemma trace_lift {A} (r : Result A) (w : World F) : trace (lift (F:=F) r) w = [].
Proof. by destruct r. Qed.

Lemma handle_seed s (w : World F) :
  handle (np_random_seed s) w = Ok (tt, {| rng := rs_seed s; display := display w |}).
Proof. done. Qed.

Lemma handle_randint low high k (w : World F) :
  handle (np_random_randint low high k) w =
  Ok ((rs_randint low high k (rng w)).1,
      {| rng := (rs_randint low high k (rng w)).2; display := display w |}).
Proof. simpl. by destruct (rs_randint low high k (rng w)). Qed.

Lemma handle_normal loc scale k (w : World F) :
  handle (np_random_normal loc scale k) w =
  Ok ((rs_normal loc scale k (rng w)).1,
      {| rng := (rs_normal loc scale k (rng w)).2; display := display w |}).
Proof. simpl. by destruct (rs_normal loc scale k (rng w)). Qed.

Lemma handle_binomial m p k (w : World F) :
  handle (np_random_binomial m p k) w =
  Ok ((rs_binomial m p k (rng w)).1,
      {| rng := (rs_binomial m p k (rng w)).2; display := display w |}).
Proof. simpl. by destruct (rs_binomial m p k (rng w)). Qed.
End RunLemmas.

(** ** Stepping through a program, one call at a time *)

Section Steps.
Context {F : Type} `{!NumpyRandom F} `{!PlotLib F}.

Lemma run_seed {A} s (f : unit → Prog F A) (w : World F) :
  run (x ←' call (np_random_seed s); f x) w =
  run (f tt) {| rng := rs_seed s; display := display w |}.
Proof. done. Qed.

Lemma run_randint {A} low high k (f : list Z → Prog F A) (w : World F) :
  run (x ←' call (np_random_randint low high k); f x) w =
  run (f (rs_randint low high k (rng w)).1)
      {| rng := (rs_randint low high k (rng w)).2; display := display w |}.
Proof. by rewrite run_bind, run_call, handle_randint. Qed.

Lemma run_normal {A} loc scale k (f : list F → Prog F A) (w : World F) :
  run (x ←' call (np_random_normal loc scale k); f x) w =
  run (f (rs_normal loc scale k (rng w)).1)
      {| rng := (rs_normal loc scale k (rng w)).2; display := display w |}.
Proof. by rewrite run_bind, run_call, handle_normal. Qed.

Lemma run_binomial {A} m p k (f : list Z → Prog F A) (w : World F) :
  run (x ←' call (np_random_binomial m p k); f x) w =
  run (f (rs_binomial m p k (rng w)).1)
      {| rng := (rs_binomial m p k (rng w)).2; display := display w |}.
Proof. by rewrite run_bind, run_call, handle_binomial. Qed.

Lemma run_lift_Ok {A B} (r : Result A) (a : A) (f : A → Prog F B) (w : World F) :
  r = Ok a → run (x ←' lift r; f x) w = run (f a) w.
Proof. by intros ->. Qed.

Lemma trace_seed {A} s (f : unit → Prog F A) (w : World F) :
  trace (x ←' call (np_random_seed s); f x) w =
  (existT _ (np_random_seed s), rng w) ::
  trace (f tt) {| rng := rs_seed s; display := display w |}.
Proof. done. Qed.

Lemma trace_randint {A} low high k (f : list Z → Prog F A) (w : World F) :
  trace (x ←' call (np_random_randint low high k); f x) w =
  (existT _ (np_random_randint low high k), rng w) ::
  trace (f (rs_randint low high k (rng w)).1)
        {| rng := (rs_randint low high k (rng w)).2; display := display w |}.
Proof. by rewrite trace_bind, trace_call, run_call, handle_randint. Qed.

Lemma trace_normal {A} loc scale k (f : list F → Prog F A) (w : World F) :
  trace (x ←' call (np_random_normal loc scale k); f x) w =
  (existT _ (np_random_normal loc scale k), rng w) ::
  trace (f (rs_normal loc scale k (rng w)).1)
        {| rng := (rs_normal loc scale k (rng w)).2; display := display w |}.
Proof. by rewrite trace_bind, trace_call, run_call, handle_normal. Qed.

Lemma trace_binomial {A} m p k (f : list Z → Prog F A) (w : World F) :
  trace (x ←' call (np_random_binomial m p k); f x) w =
  (existT _ (np_random_binomial m p k), rng w) ::
  trace (f (rs_binomial m p k (rng w)).1)
        {| rng := (rs_binomial m p k (rng w)).2; display := display w |}.
Proof. by rewrite trace_bind, trace_call, run_call, handle_binomial. Qed.

Lemma trace_lift_Ok {A B} (r : Result A) (a : A) (f : A → Prog F B) (w : World F) :
  r = Ok a → trace (x ←' lift r; f x) w = trace (f a) w.
Proof. by intros ->. Qed.
End Steps.

Ltac run_step :=
  first [ rewrite run_seed | rewrite run_randint | rewrite run_normal
        | rewrite run_binomial ];
  cbv beta; cbn [rng display].

Ltac array_lengths :=
  repeat first
    [ rewrite length_zip_with_same | rewrite length_np_scale_int
    | rewrite length_np_scale ];
  try congruence.

Ltac trace_step :=
  first [ rewrite trace_seed | rewrite trace_randint | rewrite trace_normal
        | rewrite trace_binomial ];
  cbv beta; cbn [rng display].

(** ** The Data Simulator *)

Section Simulator.
Context {F : Type} `{!Arith F} `{!NumpyRandom F} `{!PlotLib F}.
Hypothesis Hsz : numpy_sizes F.

Lemma ObjectiveHealth_signal_sized (D H : list Z) :
  length D = length H →
  Plots.ObjectiveHealth_signal D H
  = Ok (zip_with fadd (np_scale_int (lit 48 2) D) (np_scale_int (lit 61 2) H)).
Proof.
  intros Hlen. unfold Plots.ObjectiveHealth_signal.
  apply np_add_same_length. by rewrite !length_np_scale_int.
Qed.

Lemma PerceivedHealth_signal_sized (OH POV : list F) (E : list Z) :
  length OH = length POV → length OH = length E →
  Plots.PerceivedHealth_signal OH POV E
  = Ok (zip_with fadd
          (zip_with fadd (np_scale (fneg (lit 48 2)) OH) (np_scale (fneg (lit 28 2)) POV))
          (np_scale_int (lit 1 2) E)).
Proof.
  intros H1 H2. unfold Plots.PerceivedHealth_signal.
  rewrite np_add_same_length by (by rewrite !length_np_scale).
  simpl. apply np_add_same_length.
  rewrite length_zip_with_same by (by rewrite !length_np_scale).
  by rewrite length_np_scale, length_np_scale_int.
Qed.

Ltac sizes :=
  destruct Hsz as (Hri & Hno & Hbi);
  repeat first
    [ rewrite length_zip_with_same | rewrite length_np_scale_int
    | rewrite length_np_scale | rewrite Hri | rewrite Hno | rewrite Hbi ];
  try (done || congruence).

(** The run of lines 7 to 28: it completes, issues its calls in
    [draw_order], and binds each array to the draw at its position. *)
Lemma simulate_run (w : World F) :
  ∃ v, run Plots.simulate w = Ok (v, {| rng := pos 10 (rng w); display := display w |})
       ∧ trace Plots.simulate w = schedule (rng w)
       ∧ drawn_at (rng w) v.
Proof using Hsz.
  unfold Plots.simulate.
  do 5 run_step. do 5 trace_step.
  erewrite run_lift_Ok, trace_lift_Ok;
    [|apply ObjectiveHealth_signal_sized; sizes..].
  run_step. trace_step.
  erewrite run_lift_Ok, trace_lift_Ok; [|apply np_add_same_length; sizes..].
  do 3 run_step. do 3 trace_step.
  erewrite run_lift_Ok, trace_lift_Ok;
    [|apply PerceivedHealth_signal_sized; sizes..].
  run_step. trace_step.
  erewrite run_lift_Ok, trace_lift_Ok; [|apply np_add_same_length; sizes..].
  eexists. split; [reflexivity|]. split; [reflexivity|].
  unfold drawn_at, ObjectiveHealth_noise, PerceivedHealth_noise, Plots.PerceivedHealth_of.
  cbn [Plots.EDUCP_A Plots.POVRATTC_A Plots.DIBEV_A Plots.HYPEV_A
       Plots.ObjectiveHealth Plots.PHSTAT_A Plots.PHQCAT_A Plots.LSATIS4_A
       Plots.PerceivedHealth].
  rewrite ObjectiveHealth_signal_sized, PerceivedHealth_signal_sized by sizes.
  cbn [result_bind].
  repeat split; try reflexivity; apply np_add_same_length; sizes.
Qed.

Lemma drawn_at_lengths (g : RandomState) (v : Plots.Vars F) :
  drawn_at g v →
  length (Plots.EDUCP_A v) = Plots.n ∧ length (Plots.POVRATTC_A v) = Plots.n ∧
  length (Plots.DIBEV_A v) = Plots.n ∧ length (Plots.HYPEV_A v) = Plots.n ∧
  length (Plots.ObjectiveHealth v) = Plots.n ∧
  length (Plots.PHSTAT_A v) = Plots.n ∧ length (Plots.PHQCAT_A v) = Plots.n ∧
  length (Plots.LSATIS4_A v) = Plots.n ∧
  length (Plots.PerceivedHealth v) = Plots.n.
Proof using Hsz.
  intros (HE & HP & HD & HH & HO & H1 & H2 & H3 & HPH).
  assert (length (Plots.EDUCP_A v) = Plots.n) as LE by (rewrite HE; sizes).
  assert (length (Plots.POVRATTC_A v) = Plots.n) as LP by (rewrite HP; sizes).
  assert (length (Plots.DIBEV_A v) = Plots.n) as LD by (rewrite HD; sizes).
  assert (length (Plots.HYPEV_A v) = Plots.n) as LH by (rewrite HH; sizes).
  assert (length (Plots.ObjectiveHealth v) = Plots.n) as LO.
  { rewrite ObjectiveHealth_signal_sized in HO by congruence.
    cbn [result_bind] in HO. unfold ObjectiveHealth_noise in HO.
    rewrite np_add_same_length in HO by sizes.
    injection HO as <-. sizes. }
  repeat split; try done; [rewrite H1|rewrite H2|rewrite H3|]; [sizes..|].
  unfold Plots.PerceivedHealth_of, PerceivedHealth_noise in HPH.
  rewrite PerceivedHealth_signal_sized in HPH by congruence.
  cbn [result_bind] in HPH.
  rewrite np_add_same_length in HPH by sizes.
  injection HPH as <-. sizes.
Qed.

(** Once the script has seeded the generator, no position depends on the
    state the generator was in before. *)
Lemma drawn_at_any_start (g g' : RandomState) (v : Plots.Vars F) :
  drawn_at g v → drawn_at g' v.
Proof. done. Qed.

Lemma drawn_at_functional (g : RandomState) (v v' : Plots.Vars F) :
  drawn_at g v → drawn_at g v' → v = v'.
Proof.
  destruct v, v'. unfold drawn_at. simpl.
  intros (-> & -> & -> & -> & HO & -> & -> & -> & HPH)
         (-> & -> & -> & -> & HO' & -> & -> & -> & HPH').
  rewrite HO in HO'. injection HO' as ->.
  rewrite HPH in HPH'. by injection HPH' as ->.
Qed.
End Simulator.

(** ** The generated table *)

Section Table.
Context {F : Type} `{!Arith F} `{!NumpyRandom F} `{!PlotLib F}.
Hypothesis Hsz : numpy_sizes F.
Local Open Scope string_scope.

(** The dict display of lines 31 to 39 holds seven arrays. *)
Lemma df_Ok (v : Plots.Vars F) :
  length (Plots.EDUCP_A v) = Plots.n → length (Plots.POVRATTC_A v) = Plots.n →
  length (Plots.ObjectiveHealth v) = Plots.n →
  length (Plots.PerceivedHealth v) = Plots.n →
  length (Plots.PHSTAT_A v) = Plots.n → length (Plots.PHQCAT_A v) = Plots.n →
  length (Plots.LSATIS4_A v) = Plots.n →
  ∃ d, Plots.df v = Ok d ∧ nrows d = Plots.n ∧
       columns d =
         <["LSATIS4_A" := IntCol (Plots.LSATIS4_A v)]>
         (<["PHQCAT_A" := IntCol (Plots.PHQCAT_A v)]>
         (<["PHSTAT_A" := IntCol (Plots.PHSTAT_A v)]>
         (<["PerceivedHealth" := FloatCol (Plots.PerceivedHealth v)]>
         (<["ObjectiveHealth" := FloatCol (Plots.ObjectiveHealth v)]>
         (<["POVRATTC_A" := FloatCol (Plots.POVRATTC_A v)]>
         (<["EDUCP_A" := IntCol (Plots.EDUCP_A v)]> ∅)))))).
Proof.
  intros. eexists. split.
  { unfold Plots.df, py_dict. cbn [foldl fst snd].
    apply (pd_DataFrame_uniform _ Plots.n); [apply insert_non_empty|].
    repeat (apply map_Forall_insert_2; [done|]). apply map_Forall_empty. }
  split; reflexivity.
Qed.

(** The run of lines 7 to 39. *)
Lemma generate_run (w : World F) :
  ∃ v d w', run Plots.simulate w = Ok (v, w') ∧ drawn_at (rng w) v ∧
            Plots.df v = Ok d ∧ run Plots.generate w = Ok (d, w').
Proof using Hsz.
  destruct (simulate_run Hsz w) as (v & Hrun & _ & Hv).
  destruct (drawn_at_lengths Hsz _ _ Hv) as (?&?&?&?&?&?&?&?&?).
  destruct (df_Ok v) as (d & Hd & _); [done..|].
  exists v, d. eexists. split; [exact Hrun|]. split; [done|]. split; [done|].
  unfold Plots.generate. rewrite run_bind, Hrun. cbn [result_bind].
  by rewrite run_lift, Hd.
Qed.

(** C1, as the code has it: with the seed fixed to 42 and n = 1000 the
    generated table has exactly 1000 rows and 7 columns, named EDUCP_A,
    POVRATTC_A, ObjectiveHealth, PerceivedHealth, PHSTAT_A, PHQCAT_A and
    LSATIS4_A, each column holding one entry per row.  DIBEV_A and HYPEV_A
    are arrays of the simulation and not columns of the table. *)
Theorem table_shape (w : World F) :
  ∃ d w', run Plots.generate w = Ok (d, w') ∧
          shape d = (1000, 7)%nat ∧
          frame_ok d ∧
          dom (columns d) =
            list_to_set ["EDUCP_A"; "POVRATTC_A"; "ObjectiveHealth";
                         "PerceivedHealth"; "PHSTAT_A"; "PHQCAT_A"; "LSATIS4_A"] ∧
          columns d !! "DIBEV_A" = None ∧ columns d !! "HYPEV_A" = None.
Proof using Hsz.
  destruct (generate_run w) as (v & d & w' & _ & Hv & Hd & Hrun).
  destruct (drawn_at_lengths Hsz _ _ Hv) as (?&?&?&?&?&?&?&?&?).
  destruct (df_Ok v) as (d' & Hd' & Hrows & Hcols); [done..|].
  rewrite Hd in Hd'. injection Hd' as <-.
  exists d, w'. split; [done|]. split; [|split; [|split]].
  - assert (size (columns d) = 7%nat) as Hsize by (rewrite Hcols; reflexivity).
    unfold shape. rewrite Hrows, Hsize. reflexivity.
  - by destruct (pd_DataFrame_Ok _ _ Hd).
  - rewrite Hcols, !dom_insert_L, dom_empty_L. set_solver.
  - rewrite Hcols. split; reflexivity.
Qed.

(** C2: the data-generation stage is deterministic.  Whatever state the
    generator and the display were in before, two runs with the fixed
    seed 42 and n = 1000 complete with the same table, column for
    column. *)
Theorem generation_deterministic (w1 w2 : World F) :
  ∃ d, value_of (run Plots.generate w1) = Ok d ∧
       value_of (run Plots.generate w2) = Ok d.
Proof using Hsz.
  destruct (generate_run w1) as (v1 & d1 & w1' & _ & Hv1 & Hd1 & ->).
  destruct (generate_run w2) as (v2 & d2 & w2' & _ & Hv2 & Hd2 & ->).
  assert (v1 = v2) as <-.
  { eapply drawn_at_functional; [exact Hv1|].
    by apply (drawn_at_any_start (rng w2)). }
  rewrite Hd1 in Hd2. injection Hd2 as <-. exists d1. split; reflexivity.
Qed.
End Table.

(** ** Rows, ranges and draw order *)

Section Rows.
Context {F : Type} `{!Arith F} `{!NumpyRandom F} `{!PlotLib F}.
Hypothesis Hsz : numpy_sizes F.
Local Open Scope string_scope.

Lemma ObjectiveHealth_eq (g : RandomState) (v : Plots.Vars F) :
  drawn_at g v →
  Plots.ObjectiveHealth v =
  zip_with fadd
    (zip_with fadd (np_scale_int (lit 48 2) (Plots.DIBEV_A v))
                   (np_scale_int (lit 61 2) (Plots.HYPEV_A v)))
    (ObjectiveHealth_noise g).
Proof using Hsz.
  intros Hv. destruct (drawn_at_lengths Hsz _ _ Hv) as (_&_&LD&LH&_).
  destruct Hv as (_&_&_&_&HO&_).
  rewrite ObjectiveHealth_signal_sized in HO by congruence.
  cbn [result_bind] in HO.
  rewrite np_add_same_length in HO; [by injection HO|].
  destruct Hsz as (_ & Hno & _). unfold ObjectiveHealth_noise.
  rewrite Hno. array_lengths.
Qed.

Lemma PerceivedHealth_eq (g : RandomState) (v : Plots.Vars F) :
  drawn_at g v →
  Plots.PerceivedHealth v =
  zip_with fadd
    (zip_with fadd
       (zip_with fadd (np_scale (fneg (lit 48 2)) (Plots.ObjectiveHealth v))
                      (np_scale (fneg (lit 28 2)) (Plots.POVRATTC_A v)))
       (np_scale_int (lit 1 2) (Plots.EDUCP_A v)))
    (PerceivedHealth_noise g).
Proof using Hsz.
  intros Hv. destruct (drawn_at_lengths Hsz _ _ Hv) as (LE&LP&_&_&LO&_).
  destruct Hv as (_&_&_&_&_&_&_&_&HP). unfold Plots.PerceivedHealth_of in HP.
  rewrite PerceivedHealth_signal_sized in HP by congruence.
  cbn [result_bind] in HP.
  rewrite np_add_same_length in HP; [by injection HP|].
  destruct Hsz as (_ & Hno & _). unfold PerceivedHealth_noise.
  rewrite Hno. array_lengths.
Qed.

(** C3: the run completes, and in every row ObjectiveHealth is
    0.48 * DIBEV_A + 0.61 * HYPEV_A of that row plus that row's entry of a
    noise array of its own, the one [np.random.normal(0, 0.5, size=n)]
    returns at stream position 5. *)
Theorem ObjectiveHealth_rows (w : World F) :
  ∃ v w', run Plots.simulate w = Ok (v, w') ∧
    ∀ i, (i < Plots.n)%nat →
      ∃ (d h : Z) (e : F),
        Plots.DIBEV_A v !! i = Some d ∧
        Plots.HYPEV_A v !! i = Some h ∧
        ObjectiveHealth_noise (rng w) !! i = Some e ∧
        Plots.ObjectiveHealth v !! i =
          Some (fadd (fadd (fmul (lit 48 2) (of_int d)) (fmul (lit 61 2) (of_int h))) e).
Proof using Hsz.
  destruct (simulate_run Hsz w) as (v & Hrun & _ & Hv).
  exists v. eexists. split; [exact Hrun|]. intros i Hi.
  destruct (drawn_at_lengths Hsz _ _ Hv) as (_&_&LD&LH&_).
  destruct (lookup_lt_is_Some_2 (Plots.DIBEV_A v) i) as [d Hd]; [lia|].
  destruct (lookup_lt_is_Some_2 (Plots.HYPEV_A v) i) as [h Hh]; [lia|].
  destruct (lookup_lt_is_Some_2 (ObjectiveHealth_noise (rng w)) i) as [e He].
  { unfold ObjectiveHealth_noise. destruct Hsz as (_ & -> & _). lia. }
  exists d, h, e. rewrite (ObjectiveHealth_eq _ _ Hv).
  repeat split; try assumption.
  apply lookup_zip_with_Some_2; [|exact He].
  apply lookup_zip_with_Some_2; rewrite lookup_np_scale_int.
  - by rewrite Hd.
  - by rewrite Hh.
Qed.

(** C4: the run completes, and in every row PerceivedHealth is
    -0.48 * ObjectiveHealth + -0.28 * POVRATTC_A + 0.01 * EDUCP_A of that
    row plus that row's entry of a noise array of its own, the one
    [np.random.normal(0, 0.5, size=n)] returns at stream position 9. *)
Theorem PerceivedHealth_rows (w : World F) :
  ∃ v w', run Plots.simulate w = Ok (v, w') ∧
    ∀ i, (i < Plots.n)%nat →
      ∃ (o p : F) (e : Z) (ns : F),
        Plots.ObjectiveHealth v !! i = Some o ∧
        Plots.POVRATTC_A v !! i = Some p ∧
        Plots.EDUCP_A v !! i = Some e ∧
        PerceivedHealth_noise (rng w) !! i = Some ns ∧
        Plots.PerceivedHealth v !! i =
          Some (fadd (fadd (fadd (fmul (fneg (lit 48 2)) o)
                                 (fmul (fneg (lit 28 2)) p))
                           (fmul (lit 1 2) (of_int e)))
                     ns).
Proof using Hsz.
  destruct (simulate_run Hsz w) as (v & Hrun & _ & Hv).
  exists v. eexists. split; [exact Hrun|]. intros i Hi.
  destruct (drawn_at_lengths Hsz _ _ Hv) as (LE&LP&_&_&LO&_).
  destruct (lookup_lt_is_Some_2 (Plots.ObjectiveHealth v) i) as [o Ho]; [lia|].
  destruct (lookup_lt_is_Some_2 (Plots.POVRATTC_A v) i) as [p Hp]; [lia|].
  destruct (lookup_lt_is_Some_2 (Plots.EDUCP_A v) i) as [e He]; [lia|].
  destruct (lookup_lt_is_Some_2 (PerceivedHealth_noise (rng w)) i) as [ns Hns].
  { unfold PerceivedHealth_noise. destruct Hsz as (_ & -> & _). lia. }
  exists o, p, e, ns. rewrite (PerceivedHealth_eq _ _ Hv).
  repeat split; try assumption.
  apply lookup_zip_with_Some_2; [|exact Hns].
  apply lookup_zip_with_Some_2; [|by rewrite lookup_np_scale_int, He].
  apply lookup_zip_with_Some_2; rewrite lookup_np_scale.
  - by rewrite Ho.
  - by rewrite Hp.
Qed.

(** C6: the generator is called in the order EDUCP_A, POVRATTC_A, DIBEV_A,
    HYPEV_A, noise of ObjectiveHealth, PHSTAT_A, PHQCAT_A, LSATIS4_A, noise
    of PerceivedHealth (after the seeding call); each call starts from the
    state the calls before it left, and each array is the draw made at
    its position in this order. *)
Theorem draws_in_order (w : World F) :
  ∃ v d w', run Plots.simulate w = Ok (v, w') ∧
            run Plots.generate w = Ok (d, w') ∧
            trace Plots.generate w = schedule (rng w) ∧
            drawn_at (rng w) v.
Proof using Hsz.
  destruct (generate_run Hsz w) as (v & d & w' & Hrun & Hv & Hd & Hgen).
  exists v, d, w'. split; [exact Hrun|]. split; [exact Hgen|]. split; [|exact Hv].
  destruct (simulate_run Hsz w) as (v' & _ & Htr & _).
  unfold Plots.generate. rewrite trace_bind, Htr, Hrun, trace_lift.
  apply app_nil_r.
Qed.

Hypothesis Hrg : numpy_ranges F.

(** C5: every value respects its range.  The table's EDUCP_A column holds
    integers in [1,4], PHSTAT_A in [1,5], PHQCAT_A in [0,3], LSATIS4_A in
    [1,4]; every entry of the DIBEV_A and HYPEV_A arrays is 0 or 1. *)
Theorem values_in_range (w : World F) :
  ∃ v d w', run Plots.simulate w = Ok (v, w') ∧
    run Plots.generate w = Ok (d, w') ∧
    columns d !! "EDUCP_A" = Some (IntCol (Plots.EDUCP_A v)) ∧
    Forall (λ x : Z, (1 ≤ x ≤ 4)%Z) (Plots.EDUCP_A v) ∧
    columns d !! "PHSTAT_A" = Some (IntCol (Plots.PHSTAT_A v)) ∧
    Forall (λ x : Z, (1 ≤ x ≤ 5)%Z) (Plots.PHSTAT_A v) ∧
    columns d !! "PHQCAT_A" = Some (IntCol (Plots.PHQCAT_A v)) ∧
    Forall (λ x : Z, (0 ≤ x ≤ 3)%Z) (Plots.PHQCAT_A v) ∧
    columns d !! "LSATIS4_A" = Some (IntCol (Plots.LSATIS4_A v)) ∧
    Forall (λ x : Z, (1 ≤ x ≤ 4)%Z) (Plots.LSATIS4_A v) ∧
    Forall (λ x : Z, x = 0%Z ∨ x = 1%Z) (Plots.DIBEV_A v) ∧
    Forall (λ x : Z, x = 0%Z ∨ x = 1%Z) (Plots.HYPEV_A v).
Proof using Hsz Hrg.
  destruct (generate_run Hsz w) as (v & d & w' & Hrun & Hv & Hd & Hgen).
  exists v, d, w'. split; [exact Hrun|]. split; [exact Hgen|].
  destruct (drawn_at_lengths Hsz _ _ Hv) as (?&?&?&?&?&?&?&?&?).
  destruct (df_Ok v) as (d' & Hd' & _ & Hcols); [assumption..|].
  rewrite Hd in Hd'. injection Hd' as <-. clear Hd Hgen Hrun.
  destruct Hrg as (Hri & Hbi). rewrite Hcols.
  destruct Hv as (-> & _ & -> & -> & _ & -> & -> & -> & _).
  repeat split; try reflexivity;
    try (eapply Forall_impl; [apply Hri; lia|simpl; intros; lia]);
    (eapply Forall_impl; [apply Hbi; lia|simpl; intros; lia]).
Qed.
End Rows.

(** ** The Visualizer *)

Section Visualizer.
Context {F : Type} `{!Arith F} `{!NumpyRandom F} `{!PlotLib F}.
Local Open Scope string_scope.

Lemma Keeps_sound (d : DataFrame F) (p : Prog F (DataFrame F)) :
  plots_read_only F → Keeps d p →
  ∀ w, Forall (λ ev, plot_data ev.1 = None ∨ plot_data ev.1 = Some d) (trace p w) ∧
       ∀ d' w', run p w = Ok (d', w') → d' = d.
Proof.
  intros [Hlm Hreg] HK.
  induction HK as [|e|a k HK IH|a k HK IH|c k HK IH]; intros w; cbn [trace run handle].
  - split; [constructor|]. by intros d' w' [= <- _].
  - split; [constructor|]. discriminate.
  - destruct (lib_lmplot a d (display w)) as [[d1 disp]|e] eqn:Hcall; cbn.
    + apply Hlm in Hcall as ->. destruct (IH {| rng := rng w; display := disp |}).
      split; [constructor; [by right|assumption]|assumption].
    + split; [repeat constructor; by right|discriminate].
  - destruct (lib_regplot a d (display w)) as [[d1 disp]|e] eqn:Hcall; cbn.
    + apply Hreg in Hcall as ->. destruct (IH {| rng := rng w; display := disp |}).
      split; [constructor; [by right|assumption]|assumption].
    + split; [repeat constructor; by right|discriminate].
  - destruct (lib_pyplot c (display w)) as [disp|e]; cbn.
    + destruct (IH {| rng := rng w; display := disp |}).
      split; [constructor; [by left|assumption]|assumption].
    + split; [repeat constructor; by left|discriminate].
Qed.

(** C7: the Visualizer never mutates the table.  Given that seaborn does
    not write to its [data] argument, every plot call of lines 42 to 85
    is handed the table as it was created, and the table is the same
    after all three plots have been produced. *)
Theorem visualizer_keeps_table (d : DataFrame F) (w : World F) :
  plots_read_only F →
  Forall (λ ev, plot_data ev.1 = None ∨ plot_data ev.1 = Some d)
         (trace (Plots.visualize d) w) ∧
  ∀ d' w', run (Plots.visualize d) w = Ok (d', w') → d' = d.
Proof.
  intros Hro. apply Keeps_sound; [exact Hro|].
  unfold Plots.visualize. cbn [prog_bind call]. repeat constructor.
Qed.

(** C10: PHSTAT_A, PHQCAT_A and LSATIS4_A are stored in the table and
    read by none of the three plots: on two tables that differ only in
    these columns each plot call names the same x, y and hue data. *)
Theorem unplotted_columns_unread (d1 d2 : DataFrame F) :
  same_but_unplotted d1 d2 →
  lmplot_inputs Plots.plot1 d1 = lmplot_inputs Plots.plot1 d2 ∧
  regplot_inputs Plots.plot2 d1 = regplot_inputs Plots.plot2 d2 ∧
  lmplot_inputs Plots.plot3 d1 = lmplot_inputs Plots.plot3 d2.
Proof.
  intros [_ Hsame]. unfold lmplot_inputs, regplot_inputs. cbn.
  rewrite !Hsame; [done|apply not_elem_of_cons; split; [done|]..];
    (apply not_elem_of_cons; split; [done|]);
    (apply not_elem_of_cons; split; [done|]); apply not_elem_of_nil.
Qed.
End Visualizer.

(** ** PerceivedHealth against ObjectiveHealth *)

(** The source's decimal literals, read in binary64. *)
Lemma binary64_literals :
  lit (F:=float) 48 2 = 0x1.eb851eb851eb8p-2%float ∧
  lit (F:=float) 61 2 = 0x1.3851eb851eb85p-1%float ∧
  lit (F:=float) 28 2 = 0x1.1eb851eb851ecp-2%float ∧
  lit (F:=float) 1 2 = 0x1.47ae147ae147bp-7%float ∧
  lit (F:=float) 5 1 = 0x1p-1%float ∧
  lit (F:=float) 1 1 = 0x1.999999999999ap-4%float ∧
  lit (F:=float) 2 1 = 0x1.999999999999ap-3%float.
Proof. repeat split; reflexivity. Qed.

(** Lines 23 to 28 on two rows that differ in ObjectiveHealth by one unit
    in the last place: both rows get the same PerceivedHealth. *)
Lemma binary64_tie :
  Plots.PerceivedHealth_of (F:=float) [one; next_up one] [two; two] [1; 1] [zero; zero]
  = Ok [(-0x1.07ae147ae147bp+0)%float; (-0x1.07ae147ae147bp+0)%float].
Proof. reflexivity. Qed.

(** Counterexample to C9 as stated: in binary64, the arithmetic the script
    runs on, a row with a higher ObjectiveHealth can get the same
    PerceivedHealth, the difference being rounded away. *)
Lemma binary64_not_strictly_decreasing :
  ¬ decreasing_in_ObjectiveHealth (F:=float) (λ x y, PrimFloat.ltb x y = true).
Proof.
  intros H.
  specialize (H [one; next_up one] [two; two] [1; 1] [zero; zero]).
  specialize (H [(-0x1.07ae147ae147bp+0)%float; (-0x1.07ae147ae147bp+0)%float]).
  specialize (H 0%nat 1%nat one (next_up one)
                (-0x1.07ae147ae147bp+0)%float (-0x1.07ae147ae147bp+0)%float).
  discriminate H; reflexivity.
Qed.

(** Rows of [Plots.PerceivedHealth_of]: what the entries at [i] and [j]
    are when the two rows agree on POVRATTC_A, EDUCP_A and the noise. *)
Lemma PerceivedHealth_two_rows {F} `{!Arith F}
    (OH POV : list F) (E : list Z) (noise PH : list F) (i j : nat) (oi oj pi pj : F) :
  length POV = length OH → length E = length OH → length noise = length OH →
  Plots.PerceivedHealth_of OH POV E noise = Ok PH →
  OH !! i = Some oi → OH !! j = Some oj →
  POV !! i = POV !! j → E !! i = E !! j → noise !! i = noise !! j →
  PH !! i = Some pi → PH !! j = Some pj →
  ∃ b c d : F,
    pi = fadd (fadd (fadd (fmul (fneg (lit 48 2)) oi) b) c) d ∧
    pj = fadd (fadd (fadd (fmul (fneg (lit 48 2)) oj) b) c) d.
Proof.
  intros LP LE LN HPH Hoi Hoj HP HE HN Hpi Hpj.
  unfold Plots.PerceivedHealth_of in HPH.
  rewrite PerceivedHealth_signal_sized in HPH by congruence.
  cbn [result_bind] in HPH.
  rewrite np_add_same_length in HPH by array_lengths.
  injection HPH as <-.
  apply lookup_zip_with_Some in Hpi as (si & ni & -> & Hsi & Hni).
  apply lookup_zip_with_Some in Hsi as (ti & ei & -> & Hti & Hei).
  apply lookup_zip_with_Some in Hti as (ai & bi & -> & Hai & Hbi).
  apply lookup_zip_with_Some in Hpj as (sj & nj & -> & Hsj & Hnj).
  apply lookup_zip_with_Some in Hsj as (tj & ej & -> & Htj & Hej).
  apply lookup_zip_with_Some in Htj as (aj & bj & -> & Haj & Hbj).
  rewrite lookup_np_scale, Hoi in Hai. injection Hai as <-.
  rewrite lookup_np_scale, Hoj in Haj. injection Haj as <-.
  rewrite lookup_np_scale, HP, <- lookup_np_scale, Hbj in Hbi. injection Hbi as <-.
  rewrite lookup_np_scale_int, HE, <- lookup_np_scale_int, Hej in Hei.
  injection Hei as <-.
  rewrite HN, Hnj in Hni. injection Hni as <-.
  by exists bj, ej, nj.
Qed.

(** ** Round to nearest even on integers *)

Lemma rne_bounds M k : M / 2 ^ k ≤ rne M k ≤ M / 2 ^ k + 1.
Proof. unfold rne. destruct (_ || _); lia. Qed.

Lemma rne_exact c k : 0 ≤ k → rne (c * 2 ^ k) k = c.
Proof.
  intros Hk. unfold rne.
  assert (0 < 2 ^ k) by (apply Z.pow_pos_nonneg; lia).
  rewrite Z.div_mul, Z.mod_mul by lia.
  replace (2 ^ k <? 2 * 0) with false by lia.
  replace (2 * 0 =? 2 ^ k) with false by lia.
  reflexivity.
Qed.

Lemma rne_mono M1 M2 k : 0 ≤ k → M1 ≤ M2 → rne M1 k ≤ rne M2 k.
Proof.
  intros Hk HM.
  assert (0 < 2 ^ k) as Hp by (apply Z.pow_pos_nonneg; lia).
  pose proof (Z.div_le_mono M1 M2 (2 ^ k) Hp HM) as Hq.
  destruct (Z.eq_dec (M1 / 2 ^ k) (M2 / 2 ^ k)) as [Heq|Hne].
  - pose proof (Z.div_mod M1 (2 ^ k) ltac:(lia)) as E1.
    pose proof (Z.div_mod M2 (2 ^ k) ltac:(lia)) as E2.
    assert (M1 mod 2 ^ k ≤ M2 mod 2 ^ k) as Hr by (rewrite Heq in E1; lia).
    unfold rne. rewrite Heq.
    destruct (Z.odd (M2 / 2 ^ k));
      repeat match goal with
             | |- context [?a <? ?b] => destruct (Z.ltb_spec a b)
             | |- context [?a =? ?b] => destruct (Z.eqb_spec a b)
             end; simpl; lia.
  - pose proof (rne_bounds M1 k). pose proof (rne_bounds M2 k). lia.
Qed.

Lemma rne_scale M k j : 0 ≤ k → 0 ≤ j → rne (M * 2 ^ j) (k + j) = rne M k.
Proof.
  intros Hk Hj. unfold rne.
  assert (0 < 2 ^ k) by (apply Z.pow_pos_nonneg; lia).
  assert (0 < 2 ^ j) by (apply Z.pow_pos_nonneg; lia).
  rewrite Z.pow_add_r by lia.
  rewrite Z.div_mul_cancel_r by lia.
  rewrite Z.mul_mod_distr_r by lia.
  replace (2 ^ k * 2 ^ j <? 2 * (M mod 2 ^ k * 2 ^ j)) with (2 ^ k <? 2 * (M mod 2 ^ k)).
  2:{ destruct (Z.ltb_spec (2 ^ k) (2 * (M mod 2 ^ k)));
      destruct (Z.ltb_spec (2 ^ k * 2 ^ j) (2 * (M mod 2 ^ k * 2 ^ j))); try reflexivity; nia. }
  replace (2 * (M mod 2 ^ k * 2 ^ j) =? 2 ^ k * 2 ^ j) with (2 * (M mod 2 ^ k) =? 2 ^ k).
  2:{ destruct (Z.eqb_spec (2 * (M mod 2 ^ k)) (2 ^ k));
      destruct (Z.eqb_spec (2 * (M mod 2 ^ k * 2 ^ j)) (2 ^ k * 2 ^ j)); try reflexivity; nia. }
  reflexivity.
Qed.

Lemma rne_nonneg M k : 0 ≤ k → 0 ≤ M → 0 ≤ rne M k.
Proof.
  intros Hk HM. pose proof (rne_bounds M k).
  assert (0 ≤ M / 2 ^ k) by (apply Z.div_pos; [lia|apply Z.pow_pos_nonneg; lia]). lia.
Qed.

(** Bounds from powers of two. *)
Lemma rne_ge_pow M k a : 0 ≤ k → 0 ≤ a → 2 ^ (a + k) ≤ M → 2 ^ a ≤ rne M k.
Proof.
  intros Hk Ha HM. rewrite <- (rne_exact (2 ^ a) k Hk).
  apply rne_mono; [lia|]. by rewrite <- Z.pow_add_r by lia.
Qed.

Lemma rne_le_pow M k a : 0 ≤ k → 0 ≤ a → M ≤ 2 ^ (a + k) → rne M k ≤ 2 ^ a.
Proof.
  intros Hk Ha HM. rewrite <- (rne_exact (2 ^ a) k Hk).
  apply rne_mono; [lia|]. by rewrite <- Z.pow_add_r by lia.
Qed.


(** ** Rounding to binary64, on integers *)

Lemma pow2_pos k : 0 ≤ k → 0 < 2 ^ k.
Proof. intros. apply Z.pow_pos_nonneg; lia. Qed.

Lemma pow2_le a b : 0 ≤ a → a ≤ b → 2 ^ a ≤ 2 ^ b.
Proof. intros. apply Z.pow_le_mono_r; lia. Qed.

Lemma round_units_nonneg t N : 0 ≤ t → 0 < N → 0 ≤ round_units t N.
Proof.
  intros Ht HN. unfold round_units.
  remember (Z.max (Z.log2 N - 52) t) as sh eqn:Hsh.
  assert (0 ≤ rne N sh) by (apply rne_nonneg; lia).
  assert (0 < 2 ^ (sh - t)) by (apply pow2_pos; lia).
  assert (0 < INF) by (apply pow2_pos; lia).
  apply Z.min_glb; nia.
Qed.

Lemma round_units_le_INF t N : round_units t N ≤ INF.
Proof. unfold round_units. apply Z.le_min_r. Qed.

Lemma round_units_mono t N1 N2 :
  0 ≤ t → 0 < N1 → N1 ≤ N2 → round_units t N1 ≤ round_units t N2.
Proof.
  intros Ht H1 H12. unfold round_units.
  pose proof (Z.log2_le_mono N1 N2 H12) as HL.
  pose proof (Z.log2_spec N1 H1) as [_ Hu1].
  pose proof (Z.log2_spec N2 ltac:(lia)) as [Hl2 _].
  pose proof (Z.log2_nonneg N1) as Hn1.
  set (L1 := Z.log2 N1) in *. set (L2 := Z.log2 N2) in *.
  remember (Z.max (L1 - 52) t) as sh1 eqn:Hs1.
  remember (Z.max (L2 - 52) t) as sh2 eqn:Hs2.
  clearbody L1 L2.
  apply Z.min_le_compat_r.
  destruct (Z.eq_dec sh1 sh2) as [Heq|Hne].
  - rewrite <- Heq. apply Z.mul_le_mono_nonneg_r.
    + apply Z.lt_le_incl, pow2_pos. lia.
    + apply rne_mono; lia.
  - assert (sh1 < sh2) as Hlt by lia.
    assert (sh2 = L2 - 52) as Hsh2 by lia.
    assert (rne N1 sh1 ≤ 2 ^ 53) as Hr1.
    { apply rne_le_pow; [lia..|].
      transitivity (2 ^ Z.succ L1); [lia|]. apply pow2_le; lia. }
    assert (2 ^ 52 ≤ rne N2 sh2) as Hr2.
    { apply rne_ge_pow; [lia..|]. replace (52 + sh2) with L2 by lia. exact Hl2. }
    assert (0 < 2 ^ (sh1 - t)) as Hp1 by (apply pow2_pos; lia).
    assert (0 < 2 ^ (sh2 - t)) as Hp2 by (apply pow2_pos; lia).
    transitivity (2 ^ 53 * 2 ^ (sh1 - t)); [nia|].
    transitivity (2 ^ 52 * 2 ^ (sh2 - t)); [|nia].
    rewrite <- !Z.pow_add_r by lia. apply pow2_le; lia.
Qed.

Lemma round_signed_mono t N1 N2 :
  0 ≤ t → N1 ≤ N2 → round_signed t N1 ≤ round_signed t N2.
Proof.
  intros Ht H12.
  destruct N1 as [|p1|p1], N2 as [|p2|p2]; cbn [round_signed]; try lia.
  - apply round_units_nonneg; lia.
  - apply round_units_mono; lia.
  - pose proof (round_units_nonneg t (Zpos p1) Ht). lia.
  - pose proof (round_units_nonneg t (Zpos p1) Ht).
    pose proof (round_units_nonneg t (Zpos p2) Ht). lia.
  - pose proof (round_units_mono t (Zpos p2) (Zpos p1) Ht). lia.
Qed.

Lemma round_signed_opp t N : round_signed t (- N) = - round_signed t N.
Proof.
  destruct N as [|p|p]; [reflexivity..|].
  change (round_units t (Z.pos p) = - - round_units t (Z.pos p)). lia.
Qed.

(** ** The right shifts of SpecFloat *)

Lemma fexp_eq x : fexp prec emax x = Z.max (x - 53) (-1074).
Proof. reflexivity. Qed.

Lemma digits2_pos_size p : digits2_pos p = Pos.size p.
Proof. induction p as [p IH|p IH|]; simpl; by rewrite ?IH. Qed.

Lemma digits2_log2 p : Zpos (digits2_pos p) = Z.log2 (Zpos p) + 1.
Proof.
  rewrite digits2_pos_size. destruct p as [p|p|]; simpl; try reflexivity;
    by rewrite Pos2Z.inj_succ.
Qed.

Lemma shr_1_nonneg mrs :
  0 ≤ shr_m mrs →
  shr_1 mrs = {| shr_m := shr_m mrs / 2;
                 shr_r := Z.odd (shr_m mrs);
                 shr_s := shr_r mrs || shr_s mrs |}.
Proof.
  destruct mrs as [m r s]. simpl. intros Hm.
  rewrite <- Z.div2_div.
  destruct m as [|[p|p|]|p]; try reflexivity. lia.
Qed.

Lemma shr_1_inv M k mrs :
  0 ≤ M → 0 ≤ k → shr_inv M k mrs → shr_inv M (k + 1) (shr_1 mrs).
Proof.
  intros HM Hk (Hm & Hr & Hs).
  assert (0 < 2 ^ k) as Hp by (apply pow2_pos; lia).
  assert (0 ≤ shr_m mrs) as Hm0 by (rewrite Hm; apply Z.div_pos; lia).
  rewrite shr_1_nonneg by done.
  unfold shr_inv. cbn [shr_m shr_r shr_s].
  rewrite Z.pow_add_r, Z.pow_1_r by lia.
  pose proof (Z.mod_pos_bound M (2 ^ k) Hp) as Hb.
  pose proof (Z.mod_pos_bound (M / 2 ^ k) 2 ltac:(lia)) as Hb2.
  assert (M mod (2 ^ k * 2) = M mod 2 ^ k + 2 ^ k * ((M / 2 ^ k) mod 2)) as Hrem
    by (apply Z.rem_mul_r; lia).
  rewrite Hrem, Hm.
  split; [by rewrite Z.div_div by lia|].
  rewrite orb_true_iff, Hr, Hs.
  rewrite (Zmod_odd (M / 2 ^ k)) in *.
  destruct (Z.odd (M / 2 ^ k)).
  - split; [split; [lia|done]|]. split.
    + intros [Hge|[Hne Hne']]; split; lia.
    + intros [Hne Hne']. destruct (Z.eq_dec (M mod 2 ^ k) 0) as [H0|H0]; [lia|].
      destruct (Z.le_gt_cases (2 ^ k) (2 * (M mod 2 ^ k))); [by left|right; lia].
  - split; [split; [done|lia]|]. split.
    + intros [Hge|[Hne Hne']]; split; lia.
    + intros [Hne Hne']. destruct (Z.eq_dec (M mod 2 ^ k) 0) as [H0|H0]; [lia|].
      destruct (Z.le_gt_cases (2 ^ k) (2 * (M mod 2 ^ k))); [by left|right; lia].
Qed.

Lemma iter_pos_shr_inv p : ∀ M k mrs,
  0 ≤ M → 0 ≤ k → shr_inv M k mrs → shr_inv M (k + Zpos p) (SpecFloat.iter_pos shr_1 p mrs).
Proof.
  induction p as [p IH|p IH|]; intros M k mrs HM Hk Hinv; simpl.
  - replace (k + Zpos p~1) with (k + 1 + Zpos p + Zpos p) by lia.
    apply IH; [lia..|]. apply IH; [lia..|]. by apply shr_1_inv.
  - replace (k + Zpos p~0) with (k + Zpos p + Zpos p) by lia.
    apply IH; [lia..|]. by apply IH.
  - by apply shr_1_inv.
Qed.

Lemma shr_inv_start M : shr_inv M 0 (shr_record_of_loc M loc_Exact).
Proof.
  unfold shr_inv. simpl. rewrite Z.div_1_r, Z.mod_1_r.
  repeat split; try lia; try discriminate.
Qed.

Lemma shr_exact_spec M e n :
  0 ≤ M →
  ∃ mrs, shr (shr_record_of_loc M loc_Exact) e n = (mrs, e + Z.max n 0) ∧
         shr_inv M (Z.max n 0) mrs.
Proof.
  intros HM. destruct n as [|p|p]; simpl.
  - eexists. split; [by rewrite Z.add_0_r|]. apply shr_inv_start.
  - eexists. split; [reflexivity|].
    rewrite <- (Z.add_0_l (Z.max _ _)).
    replace (Z.max (Z.pos p) 0) with (Z.pos p) by lia.
    apply iter_pos_shr_inv; [lia..|apply shr_inv_start].
  - eexists. split; [by rewrite Z.add_0_r|]. apply shr_inv_start.
Qed.

Lemma round_nearest_even_rne M k mrs :
  0 ≤ k → shr_inv M k mrs →
  round_nearest_even (shr_m mrs) (loc_of_shr_record mrs) = rne M k.
Proof.
  intros Hk (Hm & Hr & Hs). destruct mrs as [m r s]. simpl in *.
  assert (0 < 2 ^ k) as Hp by (apply pow2_pos; lia).
  pose proof (Z.mod_pos_bound M (2 ^ k) Hp) as Hb.
  unfold rne. rewrite <- Hm.
  destruct r, s; simpl.
  - assert (2 ^ k < 2 * (M mod 2 ^ k)) as Hgt.
    { destruct Hr as [Hr _], Hs as [Hs _]. specialize (Hr eq_refl).
      specialize (Hs eq_refl). lia. }
    replace (2 ^ k <? 2 * (M mod 2 ^ k)) with true by lia. reflexivity.
  - assert (2 * (M mod 2 ^ k) = 2 ^ k) as Heq.
    { destruct Hr as [Hr _]. specialize (Hr eq_refl).
      destruct (Z.eq_dec (2 * (M mod 2 ^ k)) (2 ^ k)) as [|Hne]; [done|].
      destruct Hs as [_ Hs]. assert (false = true); [|done]. apply Hs. lia. }
    replace (2 ^ k <? 2 * (M mod 2 ^ k)) with false by lia.
    replace (2 * (M mod 2 ^ k) =? 2 ^ k) with true by lia.
    simpl. rewrite <- Z.negb_even. by destruct (Z.even m).
  - assert (2 * (M mod 2 ^ k) < 2 ^ k) as Hlt.
    { destruct (Z.lt_ge_cases (2 * (M mod 2 ^ k)) (2 ^ k)) as [|Hge]; [done|].
      destruct Hr as [_ Hr]. specialize (Hr Hge). done. }
    replace (2 ^ k <? 2 * (M mod 2 ^ k)) with false by lia.
    replace (2 * (M mod 2 ^ k) =? 2 ^ k) with false by lia. reflexivity.
  - assert (2 * (M mod 2 ^ k) < 2 ^ k) as Hlt.
    { destruct (Z.lt_ge_cases (2 * (M mod 2 ^ k)) (2 ^ k)) as [|Hge]; [done|].
      destruct Hr as [_ Hr]. specialize (Hr Hge). done. }
    replace (2 ^ k <? 2 * (M mod 2 ^ k)) with false by lia.
    replace (2 * (M mod 2 ^ k) =? 2 ^ k) with false by lia. reflexivity.
Qed.


(** ** SpecFloat's rounding computes [round_units] *)

Lemma log2_lt_pow2_le a b : 0 < a → a < 2 ^ b → Z.log2 a < b.
Proof. intros. by apply Z.log2_lt_pow2. Qed.

Lemma binary_round_aux_ival (s : bool) (m : positive) (e t : Z) :
  e ≤ fexp prec emax (Zpos (digits2_pos m) + e) → 0 ≤ t → 0 ≤ e + 1074 + t →
  binary_round_aux prec emax s (Zpos m) e loc_Exact ≠ S754_nan ∧
  ival (binary_round_aux prec emax s (Zpos m) e loc_Exact)
  = cond_Zopp s (round_units t (Zpos m * 2 ^ (e + 1074 + t))).
Proof.
  intros He Ht Hj. rewrite fexp_eq, digits2_log2 in He.
  pose proof (Z.log2_spec (Zpos m) ltac:(lia)) as [Hlo Hhi].
  pose proof (Z.log2_nonneg (Zpos m)) as HL0.
  remember (Z.log2 (Zpos m)) as L eqn:HL.
  remember (Z.max (L + 1 + e - 53) (-1074)) as E eqn:HE.
  (* the value the result must have *)
  assert (round_units t (Zpos m * 2 ^ (e + 1074 + t))
          = Z.min (rne (Zpos m) (E - e) * 2 ^ (E + 1074)) INF) as ->.
  { unfold round_units.
    rewrite Z.log2_mul_pow2, <- HL by lia.
    replace (Z.max (e + 1074 + t + L - 52) t) with ((E - e) + (e + 1074 + t)) by lia.
    rewrite rne_scale by lia. do 3 f_equal. lia. }
  unfold binary_round_aux, shr_fexp. cbn [Zdigits2].
  rewrite fexp_eq, digits2_log2, <- HL, <- HE.
  destruct (shr_exact_spec (Zpos m) e (E - e) ltac:(lia)) as (mrs & -> & Hinv).
  replace (e + Z.max (E - e) 0) with E by lia.
  replace (Z.max (E - e) 0) with (E - e) in Hinv by lia.
  rewrite (round_nearest_even_rne (Zpos m) (E - e) mrs ltac:(lia) Hinv).
  assert (0 ≤ rne (Zpos m) (E - e)) as Hk0 by (apply rne_nonneg; lia).
  assert (rne (Zpos m) (E - e) ≤ 2 ^ 53) as Hk53.
  { apply rne_le_pow; [lia..|]. transitivity (2 ^ Z.succ L); [lia|].
    apply pow2_le; lia. }
  remember (rne (Zpos m) (E - e)) as k eqn:Hk.
  assert (0 < 2 ^ (E + 1074)) as HpE by (apply pow2_pos; lia).
  assert (0 < INF) as HINF by (apply pow2_pos; lia).
  destruct (Z.eq_dec k (2 ^ 53)) as [Hcarry|Hnocarry].
  - (* the rounded mantissa needs one more bit *)
    rewrite Hcarry.
    rewrite fexp_eq. change (Zdigits2 (2 ^ 53)) with 54.
    replace (Z.max (54 + E - 53) (-1074) - E) with 1 by lia.
    assert (shr (shr_record_of_loc (2 ^ 53) loc_Exact) E 1
            = ({| shr_m := 2 ^ 52; shr_r := false; shr_s := false |}, E + 1)) as ->
      by reflexivity.
    cbn [shr_m]. change (2 ^ 52) with 4503599627370496. cbv iota.
    assert (emax - prec = 971) as -> by reflexivity.
    destruct (Z.leb_spec (E + 1) 971) as [Hfin|Hinf].
    + split; [discriminate|]. cbn [ival]. f_equal.
      change (Z.pos 4503599627370496) with (2 ^ 52).
      rewrite Z.min_l.
      * replace (E + 1 + 1074) with (1 + (E + 1074)) by lia.
        rewrite (Z.pow_add_r 2 1 (E + 1074)) by lia. lia.
      * unfold INF. rewrite <- Z.pow_add_r by lia. apply pow2_le; lia.
    + split; [discriminate|]. cbn [ival]. f_equal.
      rewrite Z.min_r; [done|].
      unfold INF. rewrite <- Z.pow_add_r by lia. apply pow2_le; lia.
  - (* the rounded mantissa fits *)
    assert (k < 2 ^ 53) as Hlt by lia.
    assert (Zdigits2 k ≤ 53) as Hdig.
    { destruct k as [|pk|pk]; [done| |lia]. cbn [Zdigits2]. rewrite digits2_log2.
      pose proof (log2_lt_pow2_le (Zpos pk) 53 ltac:(lia) Hlt). lia. }
    rewrite fexp_eq.
    destruct (shr_exact_spec k E (Z.max (Zdigits2 k + E - 53) (-1074) - E) Hk0)
      as (mrs' & -> & Hinv').
    replace (Z.max (Z.max (Zdigits2 k + E - 53) (-1074) - E) 0) with 0 in * by lia.
    destruct Hinv' as (-> & _). rewrite Z.pow_0_r, Z.div_1_r, Z.add_0_r.
    assert (emax - prec = 971) as -> by reflexivity.
    destruct k as [|pk|pk]; [| |lia].
    { split; [discriminate|]. rewrite Z.min_l by lia. by destruct s. }
    destruct (Z.leb_spec E 971) as [Hfin|Hinf].
    + split; [discriminate|]. cbn [ival]. f_equal.
      rewrite Z.min_l; [done|].
      transitivity (2 ^ 53 * 2 ^ (E + 1074)); [nia|].
      unfold INF. rewrite <- Z.pow_add_r by lia. apply pow2_le; lia.
    + split; [discriminate|]. cbn [ival]. f_equal.
      rewrite Z.min_r; [done|].
      assert (2 ^ 52 ≤ Zpos pk) as Hnorm.
      { rewrite Hk. apply rne_ge_pow; [lia..|].
        transitivity (2 ^ L); [apply pow2_le; lia|lia]. }
      transitivity (2 ^ 52 * 2 ^ (E + 1074)); [|nia].
      unfold INF. rewrite <- Z.pow_add_r by lia. apply pow2_le; lia.
Qed.


Lemma round_signed_pos t N : 0 < N → round_signed t N = round_units t N.
Proof. by destruct N. Qed.

Lemma round_signed_cond_Zopp t s N :
  0 < N → round_signed t (cond_Zopp s N) = cond_Zopp s (round_units t N).
Proof.
  intros HN. destruct s; simpl; [|by apply round_signed_pos].
  by rewrite round_signed_opp, round_signed_pos.
Qed.

Lemma iter_xO m d : Zpos (Pos.iter xO m d) = Zpos m * 2 ^ Zpos d.
Proof.
  induction d as [|d IH] using Pos.peano_ind.
  - simpl. lia.
  - rewrite Pos.iter_succ, Pos2Z.inj_xO, IH, Pos2Z.inj_succ, Z.pow_succ_r by lia. lia.
Qed.

Lemma shl_align_spec m e e' :
  ∃ m', shl_align m e e' = (m', Z.min e e') ∧
        Zpos m' = Zpos m * 2 ^ (e - Z.min e e').
Proof.
  unfold shl_align. destruct (e' - e) as [|d|d] eqn:Hd.
  - exists m. replace (Z.min e e') with e by lia. rewrite Z.sub_diag. split; [done|lia].
  - exists m. replace (Z.min e e') with e by lia. rewrite Z.sub_diag. split; [done|lia].
  - eexists. replace (Z.min e e') with e' by lia. split; [done|].
    rewrite iter_xO. do 2 f_equal. lia.
Qed.

Lemma binary_round_ival (s : bool) (m : positive) (e t : Z) :
  0 ≤ t → 0 ≤ e + 1074 + t →
  binary_round prec emax s m e ≠ S754_nan ∧
  ival (binary_round prec emax s m e)
  = cond_Zopp s (round_units t (Zpos m * 2 ^ (e + 1074 + t))).
Proof.
  intros Ht Hj. unfold binary_round.
  destruct (shl_align_spec m e (fexp prec emax (Zpos (digits2_pos m) + e)))
    as (m' & -> & Hm').
  rewrite fexp_eq, digits2_log2 in *.
  pose proof (Z.log2_nonneg (Zpos m)) as HL0.
  remember (Z.log2 (Zpos m)) as L eqn:HL.
  remember (Z.min e (Z.max (L + 1 + e - 53) (-1074))) as e1 eqn:He1.
  assert (Z.log2 (Zpos m') = L + (e - e1)) as HL'.
  { rewrite Hm', Z.log2_mul_pow2 by lia. lia. }
  destruct (binary_round_aux_ival s m' e1 t) as [Hnan ->]; [|done|lia|].
  { rewrite fexp_eq, digits2_log2, HL'. lia. }
  split; [done|]. do 2 f_equal. rewrite Hm', <- Z.mul_assoc, <- Z.pow_add_r by lia.
  do 2 f_equal. lia.
Qed.

Lemma binary_normalize_ival (M e t : Z) :
  0 ≤ t → 0 ≤ e + 1074 + t →
  binary_normalize prec emax M e false ≠ S754_nan ∧
  ival (binary_normalize prec emax M e false) = round_signed t (M * 2 ^ (e + 1074 + t)).
Proof.
  intros Ht Hj. assert (0 < 2 ^ (e + 1074 + t)) as Hp by (apply pow2_pos; lia).
  destruct M as [|p|p]; cbn [binary_normalize].
  - by rewrite Z.mul_0_l.
  - destruct (binary_round_ival false p e t Ht Hj) as [Hnan ->].
    split; [done|]. cbn [cond_Zopp]. symmetry. apply round_signed_pos. lia.
  - destruct (binary_round_ival true p e t Ht Hj) as [Hnan ->].
    split; [done|]. cbn [cond_Zopp].
    replace (Z.neg p * 2 ^ (e + 1074 + t)) with (- (Zpos p * 2 ^ (e + 1074 + t))) by lia.
    rewrite round_signed_opp, round_signed_pos by lia. done.
Qed.

(** ** Valid floats and their order *)

Lemma valid_finite s m e :
  valid_binary (S754_finite s m e) = true →
  e = Z.max (Z.log2 (Zpos m) + 1 + e - 53) (-1074) ∧ e ≤ 971.
Proof.
  cbn [SpecFloat.valid_binary]. unfold bounded, canonical_mantissa.
  rewrite andb_true_iff, fexp_eq, digits2_log2.
  intros [H1 H2]. apply Z.eqb_eq in H1. apply Z.leb_le in H2.
  change (emax - prec) with 971 in H2. lia.
Qed.

Lemma valid_ival_bounds s m e :
  valid_binary (S754_finite s m e) = true →
  0 < Zpos m * 2 ^ (e + 1074) < INF.
Proof.
  intros [He Hmax]%valid_finite.
  pose proof (Z.log2_spec (Zpos m) ltac:(lia)) as [Hlo Hhi].
  pose proof (Z.log2_nonneg (Zpos m)) as HL0.
  assert (0 < 2 ^ (e + 1074)) by (apply pow2_pos; lia).
  split; [lia|].
  assert (2 ^ Z.succ (Z.log2 (Zpos m)) ≤ 2 ^ 53) by (apply pow2_le; lia).
  apply Z.lt_le_trans with (2 ^ 53 * 2 ^ (e + 1074)); [nia|].
  unfold INF. rewrite <- Z.pow_add_r by lia. apply pow2_le; lia.
Qed.

(** Rounding leaves the value of a valid float as it is. *)
Lemma round_units_valid s m e :
  valid_binary (S754_finite s m e) = true →
  round_units 0 (Zpos m * 2 ^ (e + 1074)) = Zpos m * 2 ^ (e + 1074).
Proof.
  intros Hv. pose proof (valid_ival_bounds _ _ _ Hv) as Hb.
  apply valid_finite in Hv as [He Hmax].
  pose proof (Z.log2_nonneg (Zpos m)) as HL0.
  unfold round_units. rewrite Z.log2_mul_pow2 by lia.
  replace (Z.max (e + 1074 + Z.log2 (Zpos m) - 52) 0) with (e + 1074) by lia.
  rewrite rne_exact, Z.sub_0_r by lia. lia.
Qed.

Lemma round_signed_valid x :
  valid_binary x = true → finite_or_zero x → round_signed 0 (ival x) = ival x.
Proof.
  destruct x as [s|s| |s m e]; intros Hv Hf; cbn [ival]; try done.
  pose proof (valid_ival_bounds _ _ _ Hv).
  rewrite round_signed_cond_Zopp by lia. by rewrite (round_units_valid s).
Qed.

Lemma valid_exponent_lt s1 m1 e1 s2 m2 e2 :
  valid_binary (S754_finite s1 m1 e1) = true →
  valid_binary (S754_finite s2 m2 e2) = true →
  e1 < e2 → Zpos m1 * 2 ^ (e1 + 1074) < Zpos m2 * 2 ^ (e2 + 1074).
Proof.
  intros [He1 _]%valid_finite [He2 _]%valid_finite Hlt.
  pose proof (Z.log2_spec (Zpos m1) ltac:(lia)) as [_ Hhi].
  pose proof (Z.log2_spec (Zpos m2) ltac:(lia)) as [Hlo _].
  pose proof (Z.log2_nonneg (Zpos m1)). pose proof (Z.log2_nonneg (Zpos m2)).
  assert (0 < 2 ^ (e1 + 1074)) by (apply pow2_pos; lia).
  assert (0 < 2 ^ (e2 + 1074)) by (apply pow2_pos; lia).
  assert (Z.log2 (Zpos m2) = 52) as HL2 by lia. rewrite HL2 in Hlo.
  assert (2 ^ Z.succ (Z.log2 (Zpos m1)) ≤ 2 ^ 53) by (apply pow2_le; lia).
  apply Z.lt_le_trans with (2 ^ 53 * 2 ^ (e1 + 1074)); [nia|].
  apply Z.le_trans with (2 ^ 52 * 2 ^ (e2 + 1074)); [|nia].
  rewrite <- !Z.pow_add_r by lia. apply pow2_le; lia.
Qed.

Lemma SFcompare_ival x y :
  valid_binary x = true → valid_binary y = true →
  x ≠ S754_nan → y ≠ S754_nan →
  SFcompare x y = Some (ival x ?= ival y).
Proof.
  intros Hx Hy Hnx Hny.
  assert (0 < INF) as HINF by (apply pow2_pos; lia).
  destruct x as [sx|sx| |sx mx ex], y as [sy|sy| |sy my ey]; try done;
    cbn [SFcompare ival]; f_equal; symmetry;
    try pose proof (valid_ival_bounds _ _ _ Hx);
    try pose proof (valid_ival_bounds _ _ _ Hy).
  - destruct sy; cbn [cond_Zopp]; [apply Z.compare_gt_iff|apply Z.compare_lt_iff]; lia.
  - destruct sy; cbn [cond_Zopp]; [apply Z.compare_gt_iff|apply Z.compare_lt_iff]; lia.
  - destruct sx; cbn [cond_Zopp]; [apply Z.compare_lt_iff|apply Z.compare_gt_iff]; lia.
  - destruct sx, sy; cbn [cond_Zopp];
      [apply Z.compare_eq_iff|apply Z.compare_lt_iff|apply Z.compare_gt_iff
      |apply Z.compare_eq_iff]; lia.
  - destruct sx, sy; cbn [cond_Zopp];
      [apply Z.compare_lt_iff|apply Z.compare_lt_iff|apply Z.compare_gt_iff
      |apply Z.compare_gt_iff]; lia.
  - destruct sx; cbn [cond_Zopp]; [apply Z.compare_lt_iff|apply Z.compare_gt_iff]; lia.
  - destruct sx, sy; cbn [cond_Zopp];
      [apply Z.compare_gt_iff|apply Z.compare_lt_iff|apply Z.compare_gt_iff
      |apply Z.compare_lt_iff]; lia.
  - assert (0 < 2 ^ (ex + 1074)) by (apply valid_finite in Hx; apply pow2_pos; lia).
    destruct sx, sy; cbn [cond_Zopp].
    + destruct (Z.compare_spec ex ey) as [->|Hlt|Hgt].
      * rewrite Z.compare_opp, <- Zmult_compare_compat_r by lia.
        change (Pos.compare_cont Eq mx my) with (Z.pos mx ?= Z.pos my).
        by rewrite Z.compare_antisym.
      * apply Z.compare_gt_iff. pose proof (valid_exponent_lt _ _ _ _ _ _ Hx Hy Hlt). lia.
      * apply Z.compare_lt_iff. pose proof (valid_exponent_lt _ _ _ _ _ _ Hy Hx Hgt). lia.
    + apply Z.compare_lt_iff. lia.
    + apply Z.compare_gt_iff. lia.
    + destruct (Z.compare_spec ex ey) as [->|Hlt|Hgt].
      * by rewrite <- Zmult_compare_compat_r by lia.
      * apply Z.compare_lt_iff. exact (valid_exponent_lt _ _ _ _ _ _ Hx Hy Hlt).
      * apply Z.compare_gt_iff. exact (valid_exponent_lt _ _ _ _ _ _ Hy Hx Hgt).
Qed.


(** ** Correctly rounded sums and products *)

Lemma ival_cond_Zopp_mul sx sy a b :
  cond_Zopp sx a * cond_Zopp sy b = cond_Zopp (xorb sx sy) (a * b).
Proof. destruct sx, sy; simpl; lia. Qed.

Lemma SFadd_ival x z :
  valid_binary x = true → valid_binary z = true →
  finite_or_zero x → finite_or_zero z →
  SF64add x z ≠ S754_nan ∧ ival (SF64add x z) = round_signed 0 (ival x + ival z).
Proof.
  intros Hx Hz Fx Fz.
  destruct x as [sx|sx| |sx mx ex], z as [sz|sz| |sz mz ez]; try done.
  - split; [by destruct sx, sz|]. by destruct sx, sz.
  - split; [done|]. cbn [SF64add SFadd ival]. rewrite Z.add_0_l.
    symmetry. by apply (round_signed_valid (S754_finite sz mz ez)).
  - split; [done|]. cbn [SF64add SFadd ival]. rewrite Z.add_0_r.
    symmetry. by apply (round_signed_valid (S754_finite sx mx ex)).
  - unfold SF64add. cbn [SFadd].
    destruct (shl_align_spec mx ex (Z.min ex ez)) as (mx' & -> & Hmx).
    destruct (shl_align_spec mz ez (Z.min ex ez)) as (mz' & -> & Hmz).
    cbn [fst].
    apply valid_finite in Hx as [Hex _]. apply valid_finite in Hz as [Hez _].
    destruct (binary_normalize_ival
                (cond_Zopp sx (Z.pos mx') + cond_Zopp sz (Z.pos mz'))
                (Z.min ex ez) 0) as [Hnan ->]; [lia..|].
    split; [done|]. f_equal. cbn [ival]. rewrite Z.add_0_r.
    rewrite Z.mul_add_distr_r. f_equal.
    + rewrite Hmx. replace (Z.min ex (Z.min ex ez)) with (Z.min ex ez) by lia.
      assert (2 ^ (ex - Z.min ex ez) * 2 ^ (Z.min ex ez + 1074) = 2 ^ (ex + 1074)) as <-
        by (rewrite <- Z.pow_add_r by lia; f_equal; lia).
      destruct sx; cbn [cond_Zopp]; lia.
    + rewrite Hmz. replace (Z.min ez (Z.min ex ez)) with (Z.min ex ez) by lia.
      assert (2 ^ (ez - Z.min ex ez) * 2 ^ (Z.min ex ez + 1074) = 2 ^ (ez + 1074)) as <-
        by (rewrite <- Z.pow_add_r by lia; f_equal; lia).
      destruct sz; cbn [cond_Zopp]; lia.
Qed.

Lemma SFmul_ival x y :
  valid_binary x = true → valid_binary y = true →
  finite_or_zero x → finite_or_zero y →
  SF64mul x y ≠ S754_nan ∧ ival (SF64mul x y) = round_signed 1074 (ival x * ival y).
Proof.
  intros Hx Hy Fx Fy.
  destruct x as [sx|sx| |sx mx ex], y as [sy|sy| |sy my ey]; try done.
  - cbn [ival]. by rewrite Z.mul_0_r.
  - pose proof (valid_ival_bounds _ _ _ Hx) as Bx.
    pose proof (valid_ival_bounds _ _ _ Hy) as By.
    apply valid_finite in Hx as [Hex _]. apply valid_finite in Hy as [Hey _].
    unfold SF64mul. cbn [SFmul ival].
    pose proof (Z.log2_nonneg (Zpos mx)). pose proof (Z.log2_nonneg (Zpos my)).
    pose proof (Z.log2_mul_below (Zpos mx) (Zpos my) ltac:(lia) ltac:(lia)) as Hlog.
    destruct (binary_round_aux_ival (xorb sx sy) (mx * my) (ex + ey) 1074)
      as [Hnan ->]; [|lia..|].
    { rewrite fexp_eq, digits2_log2, Pos2Z.inj_mul. lia. }
    split; [done|].
    rewrite ival_cond_Zopp_mul, round_signed_cond_Zopp by nia.
    do 2 f_equal. rewrite Pos2Z.inj_mul.
    replace (ex + ey + 1074 + 1074) with ((ex + 1074) + (ey + 1074)) by lia.
    rewrite Z.pow_add_r by lia. lia.
Qed.

Lemma SFltb_false_ival x y :
  valid_binary x = true → valid_binary y = true →
  x ≠ S754_nan → y ≠ S754_nan →
  SFltb y x = false ↔ ival x ≤ ival y.
Proof.
  intros Hx Hy Hnx Hny. unfold SFltb. rewrite SFcompare_ival by done.
  destruct (Z.compare_spec (ival y) (ival x)); split; try done; lia.
Qed.

Lemma SFltb_nan_l y : SFltb S754_nan y = false.
Proof. done. Qed.

Lemma SFltb_nan_r x : SFltb x S754_nan = false.
Proof. by destruct x. Qed.

Lemma SFltb_pos_infinity_l w : SFltb (S754_infinity false) w = false.
Proof. by destruct w as [s|s| |s m e]; try destruct s. Qed.

Lemma SFltb_neg_infinity_r w : SFltb w (S754_infinity true) = false.
Proof. by destruct w as [s|s| |s m e]; try destruct s. Qed.

(** The order of two valid numbers that are not NaN, after the same
    finite number is added to both. *)
Lemma SFadd_keeps_order x y z :
  valid_binary x = true → valid_binary y = true → valid_binary z = true →
  valid_binary (SF64add x z) = true → valid_binary (SF64add y z) = true →
  finite_or_zero x → finite_or_zero y → finite_or_zero z →
  SFltb y x = false → SFltb (SF64add y z) (SF64add x z) = false.
Proof.
  intros Vx Vy Vz Vxz Vyz Fx Fy Fz Hxy.
  destruct (SFadd_ival x z) as [Nx Ix]; [done..|].
  destruct (SFadd_ival y z) as [Ny Iy]; [done..|].
  apply SFltb_false_ival in Hxy; [|done|done|by destruct x|by destruct y].
  apply SFltb_false_ival; [done..|].
  rewrite Ix, Iy. apply round_signed_mono; lia.
Qed.

(** Adding the same number to both sides keeps "not greater", whatever
    the three numbers are. *)
Lemma add_keeps_order (a b z : float) :
  (b <? a)%float = false → (b + z <? a + z)%float = false.
Proof.
  rewrite !FloatAxioms.ltb_spec, !FloatAxioms.add_spec.
  pose proof (Prim2SF_valid a) as Va. pose proof (Prim2SF_valid b) as Vb.
  pose proof (Prim2SF_valid z) as Vz.
  pose proof (Prim2SF_valid (a + z)) as Vaz. pose proof (Prim2SF_valid (b + z)) as Vbz.
  rewrite FloatAxioms.add_spec in Vaz, Vbz.
  destruct (Prim2SF z) as [sz|sz| |sz mz ez] eqn:Ez; intros Hab.
  2:{ (* z is infinite: both sums are z, or NaN *)
      by destruct (Prim2SF a) as [[]|[]| |[] ? ?], (Prim2SF b) as [[]|[]| |[] ? ?], sz. }
  2:{ (* z is NaN *)
      by destruct (Prim2SF a), (Prim2SF b). }
  all: destruct (Prim2SF a) as [sa|[]| |sa ma ea] eqn:Ea;
       [ | apply SFltb_neg_infinity_r | | by destruct (SF64add (Prim2SF b) _) | ].
  all: destruct (Prim2SF b) as [sb|[]| |sb mb eb] eqn:Eb;
       try done; try apply SFltb_pos_infinity_l.
  all: by apply SFadd_keeps_order.
Qed.

(** The order of two valid numbers that are not NaN is reversed by the
    multiplication with a negative finite number. *)
Lemma SFmul_negative_reverses_order c x y :
  valid_binary c = true → valid_binary x = true → valid_binary y = true →
  valid_binary (SF64mul c x) = true → valid_binary (SF64mul c y) = true →
  finite_or_zero c → finite_or_zero x → finite_or_zero y →
  ival c < 0 →
  SFltb y x = false → SFltb (SF64mul c x) (SF64mul c y) = false.
Proof.
  intros Vc Vx Vy Vcx Vcy Fc Fx Fy Hc Hxy.
  destruct (SFmul_ival c x) as [Nx Ix]; [done..|].
  destruct (SFmul_ival c y) as [Ny Iy]; [done..|].
  apply SFltb_false_ival in Hxy; [|done|done|by destruct x|by destruct y].
  apply SFltb_false_ival; [done..|].
  rewrite Ix, Iy. apply round_signed_mono; [lia|nia].
Qed.

(** Multiplying both sides by the same negative number reverses "not
    greater". *)
Lemma mul_negative_reverses_order (c a b : float) mc ec :
  Prim2SF c = S754_finite true mc ec →
  (b <? a)%float = false → (c * a <? c * b)%float = false.
Proof.
  intros Ec. rewrite !FloatAxioms.ltb_spec, !FloatAxioms.mul_spec.
  pose proof (Prim2SF_valid a) as Va. pose proof (Prim2SF_valid b) as Vb.
  pose proof (Prim2SF_valid c) as Vc.
  pose proof (Prim2SF_valid (c * a)) as Vca. pose proof (Prim2SF_valid (c * b)) as Vcb.
  rewrite FloatAxioms.mul_spec in Vca, Vcb. rewrite Ec in *.
  assert (ival (S754_finite true mc ec) < 0) as Hc.
  { pose proof (valid_ival_bounds _ _ _ Vc). cbn [ival cond_Zopp]. lia. }
  destruct (Prim2SF a) as [sa|[]| |sa ma ea] eqn:Ea; intros Hab;
    [ | apply SFltb_pos_infinity_l | | done | ].
  all: destruct (Prim2SF b) as [sb|[]| |sb mb eb] eqn:Eb;
       try done; try apply SFltb_neg_infinity_r; try apply SFltb_nan_r.
  all: by apply SFmul_negative_reverses_order.
Qed.

(** [a < b] excludes [b < a]. *)
Lemma ltb_asymmetric (a b : float) : (a <? b)%float = true → (b <? a)%float = false.
Proof.
  rewrite !FloatAxioms.ltb_spec.
  pose proof (Prim2SF_valid a) as Va. pose proof (Prim2SF_valid b) as Vb.
  intros Hab.
  assert (Prim2SF a ≠ S754_nan) as Na by (intros E; by rewrite E in Hab).
  assert (Prim2SF b ≠ S754_nan) as Nb
    by (intros E; rewrite E in Hab; by destruct (Prim2SF a)).
  apply SFltb_false_ival; [done..|].
  unfold SFltb in Hab. rewrite SFcompare_ival in Hab by done.
  destruct (Z.compare_spec (ival (Prim2SF a)) (ival (Prim2SF b))); [done|lia|done].
Qed.

(** The coefficient of ObjectiveHealth in line 24, as a binary64 number. *)
Lemma coefficient_negative :
  Prim2SF (fneg (lit (F:=float) 48 2)) = S754_finite true 8646911284551352 (-54).
Proof. reflexivity. Qed.

(** C9, as the code has it: with the noise draw, POVRATTC_A and EDUCP_A of
    a row held fixed, PerceivedHealth is decreasing in ObjectiveHealth
    (coefficient -0.48).  Computed in exact arithmetic a row with higher
    ObjectiveHealth gets a strictly lower PerceivedHealth; in the binary64
    arithmetic the script runs on it never gets a higher one (a lower one,
    or the same where the difference is rounded away). *)
Theorem PerceivedHealth_decreasing :
  decreasing_in_ObjectiveHealth (F:=Q) Qlt ∧
  never_increasing_in_ObjectiveHealth (F:=float) (λ x y, PrimFloat.ltb x y = true).
Proof.
  split;
    intros OH POV E noise PH i j oi oj pi pj LP LE LN HPH Hoi Hoj HP HE HN Hpi Hpj Hlt;
    destruct (PerceivedHealth_two_rows OH POV E noise PH i j oi oj pi pj)
      as (b & c & d & -> & ->); try assumption.
  - (* exact arithmetic: the coefficient is negative *)
    cbn [fadd fmul fneg lit exact].
    change (Q_lit 48 2) with (48 # 100). lra.
  - (* binary64: the product and the three sums are correctly rounded, and
       correct rounding keeps the order *)
    cbn [fadd fmul binary64].
    apply not_true_iff_false.
    do 3 apply add_keeps_order.
    eapply mul_negative_reverses_order; [apply coefficient_negative|].
    by apply ltb_asymmetric.
Qed.

(** ** The reference libraries honour the contracts *)

Section Reference.
Context {F : Type} `{!Arith F}.

Lemma Ref_draws_length {A} (f : Z → A) (k : nat) (s : Z) :
  length (Ref.draws f k s).1 = k.
Proof.
  revert s. induction k as [|k IH]; intros s; simpl; [done|].
  specialize (IH (Ref.lcg_next s)).
  destruct (Ref.draws f k (Ref.lcg_next s)). simpl in *. by rewrite IH.
Qed.

Lemma Ref_draws_Forall {A} (P : A → Prop) (f : Z → A) (k : nat) (s : Z) :
  (∀ u, P (f u)) → Forall P (Ref.draws f k s).1.
Proof.
  intros HP. revert s. induction k as [|k IH]; intros s; simpl; [constructor|].
  specialize (IH (Ref.lcg_next s)).
  destruct (Ref.draws f k (Ref.lcg_next s)). simpl in *. by constructor.
Qed.

Lemma Ref_generator_sizes : @numpy_sizes F Ref.generator.
Proof. repeat split; intros; apply Ref_draws_length. Qed.

Lemma Ref_generator_ranges : @numpy_ranges F Ref.generator.
Proof.
  split; intros; apply Ref_draws_Forall; intros u.
  - pose proof (Z.mod_pos_bound (Ref.high_bits u) (high - low)). lia.
  - pose proof (Z.mod_pos_bound (Ref.high_bits u) (m + 1)). lia.
Qed.

Lemma Ref_backend_read_only : @plots_read_only F Ref.backend.
Proof.
  split; intros a data d data' d'; simpl; unfold Ref.lookup_column;
    repeat (case_match; simpl; try discriminate); congruence.
Qed.

Lemma Ref_backend_complete : @plots_complete F Ref.backend.
Proof.
  split; intros a data d _ _; simpl; unfold Ref.lookup_column.
  - intros [x ->] [y ->] [h ->]. simpl. eauto.
  - intros [x ->] [y ->]. simpl. eauto.
Qed.
End Reference.

(** ** The theorems on concrete data *)

Lemma table_shape_witness :
  @numpy_sizes float Ref.generator ∧
  ∃ d w', run Plots.generate (Ref.world0 (F:=float)) = Ok (d, w') ∧
          shape d = (1000, 7)%nat ∧
          frame_ok d ∧
          dom (columns d) =
            list_to_set ["EDUCP_A"; "POVRATTC_A"; "ObjectiveHealth";
                         "PerceivedHealth"; "PHSTAT_A"; "PHQCAT_A"; "LSATIS4_A"]%string ∧
          columns d !! "DIBEV_A"%string = None ∧ columns d !! "HYPEV_A"%string = None.
Proof.
  split; [apply Ref_generator_sizes|].
  apply (table_shape Ref_generator_sizes Ref.world0).
Defined.

(** Counterexample to C1 as stated: the generated table does not have 9
    columns. *)
Lemma table_has_no_nine_columns :
  ¬ ∃ d w', run Plots.generate (Ref.world0 (F:=float)) = Ok (d, w') ∧
            shape d = (1000, 9)%nat ∧
            dom (columns d) =
              list_to_set ["EDUCP_A"; "POVRATTC_A"; "DIBEV_A"; "HYPEV_A";
                           "ObjectiveHealth"; "PHSTAT_A"; "PHQCAT_A"; "LSATIS4_A";
                           "PerceivedHealth"]%string.
Proof.
  intros (d & w' & Hrun & Hshape & _).
  destruct (generate_run Ref_generator_sizes (Ref.world0 (F:=float)))
    as (v & d0 & w0 & _ & Hv & Hd & Hgen).
  rewrite Hgen in Hrun. injection Hrun as <- <-.
  destruct (drawn_at_lengths Ref_generator_sizes _ _ Hv) as (?&?&?&?&?&?&?&?&?).
  destruct (df_Ok v) as (d' & Hd' & Hrows & Hcols); [assumption..|].
  rewrite Hd in Hd'. injection Hd' as <-.
  assert (size (columns d0) = 7%nat) as Hsize by (rewrite Hcols; reflexivity).
  unfold shape in Hshape. rewrite Hsize in Hshape. congruence.
Qed.

Lemma generation_deterministic_witness :
  @numpy_sizes float Ref.generator ∧
  ∃ d, value_of (run Plots.generate (Ref.world0 (F:=float))) = Ok d ∧
       value_of (run Plots.generate (Ref.world1 (F:=float))) = Ok d.
Proof.
  split; [apply Ref_generator_sizes|].
  apply (generation_deterministic Ref_generator_sizes).
Defined.

Lemma ObjectiveHealth_rows_witness :
  @numpy_sizes float Ref.generator ∧
  ∃ v w', run Plots.simulate (Ref.world0 (F:=float)) = Ok (v, w') ∧
    ∀ i, (i < Plots.n)%nat →
      ∃ (d h : Z) (e : float),
        Plots.DIBEV_A v !! i = Some d ∧
        Plots.HYPEV_A v !! i = Some h ∧
        ObjectiveHealth_noise (rng (Ref.world0 (F:=float))) !! i = Some e ∧
        Plots.ObjectiveHealth v !! i =
          Some (fadd (fadd (fmul (lit 48 2) (of_int d)) (fmul (lit 61 2) (of_int h))) e).
Proof.
  split; [apply Ref_generator_sizes|].
  apply (ObjectiveHealth_rows Ref_generator_sizes).
Defined.

Lemma PerceivedHealth_rows_witness :
  @numpy_sizes float Ref.generator ∧
  ∃ v w', run Plots.simulate (Ref.world0 (F:=float)) = Ok (v, w') ∧
    ∀ i, (i < Plots.n)%nat →
      ∃ (o p : float) (e : Z) (ns : float),
        Plots.ObjectiveHealth v !! i = Some o ∧
        Plots.POVRATTC_A v !! i = Some p ∧
        Plots.EDUCP_A v !! i = Some e ∧
        PerceivedHealth_noise (rng (Ref.world0 (F:=float))) !! i = Some ns ∧
        Plots.PerceivedHealth v !! i =
          Some (fadd (fadd (fadd (fmul (fneg (lit 48 2)) o)
                                 (fmul (fneg (lit 28 2)) p))
                           (fmul (lit 1 2) (of_int e)))
                     ns).
Proof.
  split; [apply Ref_generator_sizes|].
  apply (PerceivedHealth_rows Ref_generator_sizes).
Defined.

Lemma draws_in_order_witness :
  @numpy_sizes float Ref.generator ∧
  ∃ v d w', run Plots.simulate (Ref.world0 (F:=float)) = Ok (v, w') ∧
            run Plots.generate (Ref.world0 (F:=float)) = Ok (d, w') ∧
            trace Plots.generate (Ref.world0 (F:=float)) =
              schedule (rng (Ref.world0 (F:=float))) ∧
            drawn_at (rng (Ref.world0 (F:=float))) v.
Proof.
  split; [apply Ref_generator_sizes|].
  apply (draws_in_order Ref_generator_sizes).
Defined.

Lemma values_in_range_witness :
  @numpy_sizes float Ref.generator ∧ @numpy_ranges float Ref.generator ∧
  ∃ v d w', run Plots.simulate (Ref.world0 (F:=float)) = Ok (v, w') ∧
    run Plots.generate (Ref.world0 (F:=float)) = Ok (d, w') ∧
    columns d !! "EDUCP_A"%string = Some (IntCol (Plots.EDUCP_A v)) ∧
    Forall (λ x : Z, 1 ≤ x ≤ 4) (Plots.EDUCP_A v) ∧
    columns d !! "PHSTAT_A"%string = Some (IntCol (Plots.PHSTAT_A v)) ∧
    Forall (λ x : Z, 1 ≤ x ≤ 5) (Plots.PHSTAT_A v) ∧
    columns d !! "PHQCAT_A"%string = Some (IntCol (Plots.PHQCAT_A v)) ∧
    Forall (λ x : Z, 0 ≤ x ≤ 3) (Plots.PHQCAT_A v) ∧
    columns d !! "LSATIS4_A"%string = Some (IntCol (Plots.LSATIS4_A v)) ∧
    Forall (λ x : Z, 1 ≤ x ≤ 4) (Plots.LSATIS4_A v) ∧
    Forall (λ x : Z, x = 0 ∨ x = 1) (Plots.DIBEV_A v) ∧
    Forall (λ x : Z, x = 0 ∨ x = 1) (Plots.HYPEV_A v).
Proof.
  split; [apply Ref_generator_sizes|]. split; [apply Ref_generator_ranges|].
  apply (values_in_range Ref_generator_sizes Ref_generator_ranges).
Defined.

Lemma Ref_table1_ok : frame_ok Ref.table1.
Proof.
  unfold frame_ok, Ref.table1, Ref.survey, py_dict. cbn [foldl fst snd columns nrows].
  repeat (apply map_Forall_insert_2; [reflexivity|]). apply map_Forall_empty.
Qed.

Lemma Ref_table1_required : required_columns Ref.table1.
Proof. repeat split; eexists; reflexivity. Qed.

Lemma Ref_tables_same_but_unplotted : same_but_unplotted Ref.table1 Ref.table2.
Proof.
  split; [reflexivity|]. intros name Hname.
  apply not_elem_of_cons in Hname as [H1 Hname].
  apply not_elem_of_cons in Hname as [H2 Hname].
  apply not_elem_of_cons in Hname as [H3 _].
  unfold Ref.table1, Ref.table2, Ref.survey, py_dict. cbn [foldl fst snd columns].
  by rewrite !(lookup_insert_ne _ "LSATIS4_A"), !(lookup_insert_ne _ "PHQCAT_A"),
             !(lookup_insert_ne _ "PHSTAT_A").
Qed.

(** On the recording backend the Visualizer runs to its end. *)
Lemma Ref_visualize_completes :
  value_of (run (Plots.visualize Ref.table1) (Ref.world0 (F:=float))) = Ok Ref.table1.
Proof. vm_compute. reflexivity. Qed.

Lemma visualizer_keeps_table_witness :
  @plots_read_only float Ref.backend ∧
  value_of (run (Plots.visualize Ref.table1) (Ref.world0 (F:=float))) = Ok Ref.table1 ∧
  Forall (λ ev, plot_data ev.1 = None ∨ plot_data ev.1 = Some Ref.table1)
         (trace (Plots.visualize Ref.table1) (Ref.world0 (F:=float))) ∧
  ∀ d' w', run (Plots.visualize Ref.table1) (Ref.world0 (F:=float)) = Ok (d', w') →
           d' = Ref.table1.
Proof.
  split; [apply Ref_backend_read_only|].
  split; [apply Ref_visualize_completes|].
  apply (visualizer_keeps_table Ref.table1 Ref.world0 Ref_backend_read_only).
Defined.

Lemma unplotted_columns_unread_witness :
  same_but_unplotted Ref.table1 Ref.table2 ∧
  lmplot_inputs Plots.plot1 Ref.table1 = lmplot_inputs Plots.plot1 Ref.table2 ∧
  regplot_inputs Plots.plot2 Ref.table1 = regplot_inputs Plots.plot2 Ref.table2 ∧
  lmplot_inputs Plots.plot3 Ref.table1 = lmplot_inputs Plots.plot3 Ref.table2.
Proof.
  split; [apply Ref_tables_same_but_unplotted|].
  apply (unplotted_columns_unread _ _ Ref_tables_same_but_unplotted).
Defined.

Lemma PerceivedHealth_decreasing_witness :
  (- (48 # 100) * 1 + - (28 # 100) * 2 + (1 # 100) * inject_Z 3 + (1 # 2) <
   - (48 # 100) * 0 + - (28 # 100) * 2 + (1 # 100) * inject_Z 3 + (1 # 2))%Q ∧
  ¬ PrimFloat.ltb (-0x1.07ae147ae147bp+0)%float (-0x1.07ae147ae147bp+0)%float = true.
Proof.
  split.
  - apply (proj1 PerceivedHealth_decreasing
             [0%Q; 1%Q] [2%Q; 2%Q] [3; 3] [(1 # 2)%Q; (1 # 2)%Q] _
             0%nat 1%nat 0%Q 1%Q _ _
             eq_refl eq_refl eq_refl eq_refl eq_refl eq_refl eq_refl eq_refl eq_refl
             eq_refl eq_refl);
      reflexivity.
  - apply (proj2 PerceivedHealth_decreasing
             [one; next_up one] [two; two] [1; 1] [zero; zero] _
             0%nat 1%nat one (next_up one) _ _
             eq_refl eq_refl eq_refl eq_refl eq_refl eq_refl eq_refl eq_refl eq_refl
             eq_refl eq_refl);
      reflexivity.
Defined.

(** ** The calls a run makes *)

Section CallLemmas.
Context {F : Type} `{!Arith F} `{!NumpyRandom F} `{!PlotLib F}.

Lemma issues_Ret {A} (a : A) : issues (Ret (F:=F) a) [].
Proof. intros w. split; [by intros a' w' [= _ <-]|discriminate]. Qed.

(** One more call in front, for a call that returns [x] whenever it
    returns and leaves the generator alone. *)
Lemma issues_step {A X} (c : Call F X) (k : X → Prog F A) (x : X)
    (l : list (Event F)) :
  (∀ w x' w', handle c w = Ok (x', w') → x' = x ∧ rng w' = rng w) →
  issues (k x) l → issues (Vis c k) (existT _ c :: l).
Proof.
  intros Hc Hk w. cbn [trace run].
  destruct (handle c w) as [[x' w1]|e] eqn:Hcall.
  - destruct (Hc w x' w1 Hcall) as [-> Hrng]. destruct (Hk w1) as [Hok Hraise]. split.
    + intros a w' Hrun. destruct (Hok a w' Hrun) as [-> ->].
      rewrite Hrng. done.
    + intros e Hrun. destruct (Hraise e Hrun) as (n & ev & disp & Hev & Hat & ->).
      exists (S n), ev, disp. rewrite Hrng in *. done.
  - split; [discriminate|]. intros e' [= <-].
    exists 0%nat, (existT _ c), (display w). split; [done|]. split; [|done].
    unfold raises_at. cbn [projT2]. by destruct w.
Qed.

Lemma issues_plt {A} (c : PltCall) (k : unit → Prog F A) (l : list (Event F)) :
  issues (k tt) l → issues (Vis (plt c) k) (existT _ (plt c) :: l).
Proof.
  apply issues_step. intros w [] w'. cbn [handle].
  destruct (lib_pyplot c (display w)); [|discriminate]. by intros [= <-].
Qed.

Lemma issues_lmplot {A} (d : DataFrame F) (a : LmplotArgs F)
    (k : DataFrame F → Prog F A) (l : list (Event F)) :
  plots_read_only F → issues (k d) l →
  issues (Vis (sns_lmplot d a) k) (existT _ (sns_lmplot d a) :: l).
Proof.
  intros [Hlm _]. apply issues_step. intros w d1 w'. cbn [handle].
  destruct (lib_lmplot a d (display w)) as [[d2 disp]|e] eqn:Hcall; [|discriminate].
  apply Hlm in Hcall as ->. by intros [= <- <-].
Qed.

Lemma issues_regplot {A} (d : DataFrame F) (a : RegplotArgs F)
    (k : DataFrame F → Prog F A) (l : list (Event F)) :
  plots_read_only F → issues (k d) l →
  issues (Vis (sns_regplot d a) k) (existT _ (sns_regplot d a) :: l).
Proof.
  intros [_ Hreg]. apply issues_step. intros w d1 w'. cbn [handle].
  destruct (lib_regplot a d (display w)) as [[d2 disp]|e] eqn:Hcall; [|discriminate].
  apply Hreg in Hcall as ->. by intros [= <- <-].
Qed.

Lemma completes_Ret {A} (a : A) : completes (Ret (F:=F) a).
Proof. intros w. by eexists. Qed.

Lemma completes_plt {A} (c : PltCall) (k : unit → Prog F A) :
  pyplot_complete F → completes (k tt) → completes (Vis (plt c) k).
Proof.
  intros Hpy Hk w. cbn [run handle].
  destruct (Hpy c (display w)) as [disp ->]. cbn [result_map result_bind]. apply Hk.
Qed.

Lemma completes_lmplot {A} (d : DataFrame F) (a : LmplotArgs F)
    (k : DataFrame F → Prog F A) :
  plots_read_only F → plots_complete F → frame_ok d → (0 < nrows d)%nat →
  is_Some (columns d !! lm_x a) → is_Some (columns d !! lm_y a) →
  is_Some (columns d !! lm_hue a) →
  completes (k d) → completes (Vis (sns_lmplot d a) k).
Proof.
  intros [Hro _] [Hlm _] Hok Hrows Hx Hy Hh Hk w. cbn [run handle].
  destruct (Hlm a d (display w) Hok Hrows Hx Hy Hh) as [[d1 disp] Hcall].
  rewrite Hcall. apply Hro in Hcall as ->. cbn [result_map result_bind]. apply Hk.
Qed.

Lemma completes_regplot {A} (d : DataFrame F) (a : RegplotArgs F)
    (k : DataFrame F → Prog F A) :
  plots_read_only F → plots_complete F → frame_ok d → (0 < nrows d)%nat →
  is_Some (columns d !! reg_x a) → is_Some (columns d !! reg_y a) →
  completes (k d) → completes (Vis (sns_regplot d a) k).
Proof.
  intros [_ Hro] [_ Hreg] Hok Hrows Hx Hy Hk w. cbn [run handle].
  destruct (Hreg a d (display w) Hok Hrows Hx Hy) as [[d1 disp] Hcall].
  rewrite Hcall. apply Hro in Hcall as ->. cbn [result_map result_bind]. apply Hk.
Qed.

(** Lines 42 to 85 make the calls of [plot_calls]. *)
Lemma visualize_issues (d : DataFrame F) :
  plots_read_only F → issues (Plots.visualize d) (plot_calls d).
Proof.
  intros Hro. unfold Plots.visualize, plot_calls. cbn [prog_bind call].
  repeat first [ apply issues_lmplot; [exact Hro|] | apply issues_regplot; [exact Hro|]
               | apply issues_plt | apply issues_Ret ].
Qed.

Lemma visualize_runs_to_end (d : DataFrame F) :
  plots_read_only F → plots_complete F → pyplot_complete F →
  frame_ok d → (0 < nrows d)%nat → required_columns d →
  completes (Plots.visualize d).
Proof.
  intros Hro Hco Hpy Hok Hrows ([p Hp] & [o Ho] & [ph Hph] & [e He]).
  unfold Plots.visualize. cbn [prog_bind call].
  repeat first
    [ apply completes_lmplot; [exact Hro|exact Hco|exact Hok|exact Hrows|..]
    | apply completes_regplot; [exact Hro|exact Hco|exact Hok|exact Hrows|..]
    | apply completes_plt; [exact Hpy|]
    | apply completes_Ret ];
    cbn [lm_x lm_y lm_hue reg_x reg_y Plots.plot1 Plots.plot2 Plots.plot3];
    by rewrite ?Hp, ?Ho, ?Hph, ?He.
Qed.

Lemma visualize_keeps (d : DataFrame F) : Keeps d (Plots.visualize d).
Proof. unfold Plots.visualize. cbn [prog_bind call]. repeat constructor. Qed.
End CallLemmas.

(** ** The whole script *)

Section Whole.
Context {F : Type} `{!Arith F} `{!NumpyRandom F} `{!PlotLib F}.
Local Open Scope string_scope.

(** The run of lines 7 to 39 with what is known about its result. *)
Lemma generate_table (w : World F) :
  numpy_sizes F →
  ∃ v d w1,
    rng w1 = pos 10 (rng w) ∧ display w1 = display w ∧
    run Plots.simulate w = Ok (v, w1) ∧
    run Plots.generate w = Ok (d, w1) ∧
    trace Plots.generate w = schedule (rng w) ∧
    drawn_at (rng w) v ∧
    frame_ok d ∧ nrows d = Plots.n ∧
    columns d =
      <["LSATIS4_A" := IntCol (Plots.LSATIS4_A v)]>
      (<["PHQCAT_A" := IntCol (Plots.PHQCAT_A v)]>
      (<["PHSTAT_A" := IntCol (Plots.PHSTAT_A v)]>
      (<["PerceivedHealth" := FloatCol (Plots.PerceivedHealth v)]>
      (<["ObjectiveHealth" := FloatCol (Plots.ObjectiveHealth v)]>
      (<["POVRATTC_A" := FloatCol (Plots.POVRATTC_A v)]>
      (<["EDUCP_A" := IntCol (Plots.EDUCP_A v)]> ∅)))))).
Proof.
  intros Hsz. destruct (simulate_run Hsz w) as (v & Hrun & Htr & Hv).
  destruct (drawn_at_lengths Hsz _ _ Hv) as (?&?&?&?&?&?&?&?&?).
  destruct (df_Ok v) as (d & Hd & Hrows & Hcols); [assumption..|].
  exists v, d, {| rng := pos 10 (rng w); display := display w |}.
  split; [reflexivity|]. split; [reflexivity|].
  split; [exact Hrun|]. split.
  { unfold Plots.generate. rewrite run_bind, Hrun. cbn [result_bind].
    rewrite run_lift, Hd. reflexivity. }
  split.
  { unfold Plots.generate. rewrite trace_bind, Htr, Hrun, trace_lift. apply app_nil_r. }
  split; [exact Hv|]. split; [exact (proj2 (pd_DataFrame_Ok _ _ Hd))|].
  split; [exact Hrows|exact Hcols].
Qed.

(** The generated table has what the three plots ask for. *)
Lemma generated_table_required (v : Plots.Vars F) (d : DataFrame F) :
  columns d =
    <["LSATIS4_A" := IntCol (Plots.LSATIS4_A v)]>
    (<["PHQCAT_A" := IntCol (Plots.PHQCAT_A v)]>
    (<["PHSTAT_A" := IntCol (Plots.PHSTAT_A v)]>
    (<["PerceivedHealth" := FloatCol (Plots.PerceivedHealth v)]>
    (<["ObjectiveHealth" := FloatCol (Plots.ObjectiveHealth v)]>
    (<["POVRATTC_A" := FloatCol (Plots.POVRATTC_A v)]>
    (<["EDUCP_A" := IntCol (Plots.EDUCP_A v)]> ∅)))))) →
  required_columns d.
Proof.
  intros Hcols. unfold required_columns. rewrite Hcols.
  repeat split; eexists; reflexivity.
Qed.

(** X1: the script runs to its end.  Given NumPy's [size] contract, a
    seaborn that reads [data] without writing to it and draws every
    well-formed non-empty frame whose named columns exist, and a pyplot
    whose calls do not fail, the run of lines 7 to 85 returns; the frame
    [df] holds at the end what the Data Simulator put there; the generator
    stands ten calls after where it started; and the run has made the ten
    generator calls of lines 7 to 27 followed by the nineteen plotting
    calls of lines 42 to 85, and no other. *)
Theorem script_completes (w : World F) :
  numpy_sizes F → plots_read_only F → plots_complete F → pyplot_complete F →
  ∃ d w', run Plots.script w = Ok (d, w') ∧
          value_of (run Plots.generate w) = Ok d ∧
          rng w' = pos 10 (rng w) ∧
          trace Plots.script w =
            (schedule (rng w) ++ issued 19 (plot_calls d) (pos 10 (rng w)))%list.
Proof.
  intros Hsz Hro Hco Hpy.
  destruct (generate_table w Hsz)
    as (v & d & w1 & Hrng1 & _ & _ & Hgen & Htr & _ & Hok & Hrows & Hcols).
  pose proof (generated_table_required v d Hcols) as Hreq.
  assert (0 < nrows d)%nat as Hpos by (rewrite Hrows; apply Nat.lt_0_succ).
  destruct (visualize_runs_to_end d Hro Hco Hpy Hok Hpos Hreq w1) as [[d' w'] Hrun].
  destruct (Keeps_sound d _ Hro (visualize_keeps d) w1) as [_ Hkeep].
  pose proof (Hkeep d' w' Hrun) as ->.
  destruct (visualize_issues d Hro w1) as [Hiss _].
  destruct (Hiss d w' Hrun) as [Hvtr Hrng].
  rewrite Hrng1 in Hvtr, Hrng.
  exists d, w'. unfold Plots.script.
  rewrite run_bind, trace_bind, Hgen, Htr. cbn [result_bind].
  split; [exact Hrun|]. split; [reflexivity|]. split; [exact Hrng|].
  rewrite Hvtr. reflexivity.
Qed.

(** X2: the script raises only what a plotting call raises.  The script
    has no [raise] and no [try] of its own and its data generation cannot
    fail: if the run raises [e], the table was generated, [e] was raised
    by one of the nineteen seaborn or pyplot calls of lines 42 to 85, and
    the run stopped there, having made the ten generator calls and the
    plotting calls up to and including the failing one. *)
Theorem script_raises_only_from_plotting (w : World F) (e : Exn) :
  numpy_sizes F → plots_read_only F →
  run Plots.script w = Raised e →
  ∃ d k ev disp,
    value_of (run Plots.generate w) = Ok d ∧
    plot_calls d !! k = Some ev ∧ raises_at ev (pos 10 (rng w)) disp e ∧
    trace Plots.script w =
      (schedule (rng w) ++ issued (S k) (plot_calls d) (pos 10 (rng w)))%list.
Proof.
  intros Hsz Hro Hrun.
  destruct (generate_table w Hsz)
    as (v & d & w1 & Hrng1 & _ & _ & Hgen & Htr & _).
  unfold Plots.script in *.
  rewrite run_bind, Hgen in Hrun. cbn [result_bind] in Hrun.
  destruct (visualize_issues d Hro w1) as [_ Hiss].
  destruct (Hiss e Hrun) as (k & ev & disp & Hev & Hat & Hvtr).
  rewrite Hrng1 in Hat, Hvtr.
  exists d, k, ev, disp. rewrite trace_bind, Hgen, Htr, Hvtr.
  split; [reflexivity|]. split; [exact Hev|]. split; [exact Hat|reflexivity].
Qed.

(** X3: the order of the Visualizer's calls.  On any table, given that
    seaborn does not write to [data], lines 42 to 85 call, in this order:
    lmplot (Plot 1), title, xlabel, ylabel, tight_layout, show;
    figure(figsize=(8, 5)), regplot (Plot 2), title, xlabel, ylabel,
    tight_layout, show; lmplot (Plot 3), title, xlabel, ylabel,
    tight_layout, show.  A run that returns has made all nineteen; a run
    that raises has stopped at the call that raised.  No call goes to
    [np.random], and the generator is left as it was. *)
Theorem visualizer_call_order (d : DataFrame F) (w : World F) :
  plots_read_only F →
  (∀ d' w', run (Plots.visualize d) w = Ok (d', w') →
     trace (Plots.visualize d) w = issued 19 (plot_calls d) (rng w) ∧ rng w' = rng w) ∧
  (∀ e, run (Plots.visualize d) w = Raised e →
     ∃ k ev disp, plot_calls d !! k = Some ev ∧ raises_at ev (rng w) disp e ∧
                  trace (Plots.visualize d) w = issued (S k) (plot_calls d) (rng w)).
Proof.
  intros Hro. revert w.
  change (issues (Plots.visualize d) (plot_calls d)).
  unfold Plots.visualize, plot_calls. cbn [prog_bind call].
  (* Plot 1 and its decorations *)
  apply issues_lmplot; [exact Hro|]. do 5 apply issues_plt.
  (* Plot 2: the figure is opened first *)
  apply issues_plt. apply issues_regplot; [exact Hro|]. do 5 apply issues_plt.
  (* Plot 3 *)
  apply issues_lmplot; [exact Hro|]. do 5 apply issues_plt.
  apply issues_Ret.
Qed.

(** X4: the Visualizer runs to its end.  On every well-formed, non-empty
    table with the columns POVRATTC_A, ObjectiveHealth, PerceivedHealth
    (float) and EDUCP_A (integer), and under the contracts of X1 for
    seaborn and pyplot, all nineteen calls of lines 42 to 85 return, the
    table is the same afterwards, and the generator has not moved. *)
Theorem visualizer_completes (d : DataFrame F) (w : World F) :
  plots_read_only F → plots_complete F → pyplot_complete F →
  frame_ok d → (0 < nrows d)%nat → required_columns d →
  ∃ w', run (Plots.visualize d) w = Ok (d, w') ∧ rng w' = rng w ∧
        trace (Plots.visualize d) w = issued 19 (plot_calls d) (rng w).
Proof.
  intros Hro Hco Hpy Hok Hrows Hreq.
  destruct (visualize_runs_to_end d Hro Hco Hpy Hok Hrows Hreq w) as [[d' w'] Hrun].
  destruct (Keeps_sound d _ Hro (visualize_keeps d) w) as [_ Hkeep].
  pose proof (Hkeep d' w' Hrun) as ->.
  destruct (visualize_issues d Hro w) as [Hiss _].
  destruct (Hiss d w' Hrun) as [Htr Hrng].
  exists w'. split; [exact Hrun|]. split; [exact Hrng|exact Htr].
Qed.

(** X5: what the plots read.  On the generated table, Plot 1 is handed
    the simulated POVRATTC_A array as x, ObjectiveHealth as y and EDUCP_A
    as hue; Plot 2 ObjectiveHealth as x and PerceivedHealth as y; Plot 3
    POVRATTC_A as x, PerceivedHealth as y and EDUCP_A as hue.  Each of
    these columns is the array lines 11 to 28 computed, with 1000
    entries. *)
Theorem plots_read_simulated_arrays (w : World F) :
  numpy_sizes F →
  ∃ v d w', run Plots.simulate w = Ok (v, w') ∧ run Plots.generate w = Ok (d, w') ∧
    lmplot_inputs Plots.plot1 d =
      (Some (FloatCol (Plots.POVRATTC_A v)), Some (FloatCol (Plots.ObjectiveHealth v)),
       Some (IntCol (Plots.EDUCP_A v))) ∧
    regplot_inputs Plots.plot2 d =
      (Some (FloatCol (Plots.ObjectiveHealth v)),
       Some (FloatCol (Plots.PerceivedHealth v))) ∧
    lmplot_inputs Plots.plot3 d =
      (Some (FloatCol (Plots.POVRATTC_A v)), Some (FloatCol (Plots.PerceivedHealth v)),
       Some (IntCol (Plots.EDUCP_A v))) ∧
    length (Plots.POVRATTC_A v) = 1000%nat ∧ length (Plots.EDUCP_A v) = 1000%nat ∧
    length (Plots.ObjectiveHealth v) = 1000%nat ∧
    length (Plots.PerceivedHealth v) = 1000%nat.
Proof.
  intros Hsz.
  destruct (generate_table w Hsz)
    as (v & d & w1 & _ & _ & Hsim & Hgen & _ & Hv & _ & _ & Hcols).
  destruct (drawn_at_lengths Hsz _ _ Hv) as (LE & LP & _ & _ & LO & _ & _ & _ & LPH).
  exists v, d, w1. split; [exact Hsim|]. split; [exact Hgen|].
  unfold lmplot_inputs, regplot_inputs. rewrite Hcols.
  split; [reflexivity|]. split; [reflexivity|]. split; [reflexivity|].
  split; [exact LP|]. split; [exact LE|]. split; [exact LO|exact LPH].
Qed.


End Whole.

(** ** Order and magnitude in binary64 *)

Lemma SFadd_keeps_order_l x y z :
  valid_binary x = true → valid_binary y = true → valid_binary z = true →
  valid_binary (SF64add z x) = true → valid_binary (SF64add z y) = true →
  finite_or_zero x → finite_or_zero y → finite_or_zero z →
  SFltb y x = false → SFltb (SF64add z y) (SF64add z x) = false.
Proof.
  intros Vx Vy Vz Vxz Vyz Fx Fy Fz Hxy.
  destruct (SFadd_ival z x) as [Nx Ix]; [done..|].
  destruct (SFadd_ival z y) as [Ny Iy]; [done..|].
  apply SFltb_false_ival in Hxy; [|done|done|by destruct x|by destruct y].
  apply SFltb_false_ival; [done..|].
  rewrite Ix, Iy. apply round_signed_mono; lia.
Qed.

Lemma add_keeps_order_l (a b z : float) :
  (b <? a)%float = false → (z + b <? z + a)%float = false.
Proof.
  rewrite !FloatAxioms.ltb_spec, !FloatAxioms.add_spec.
  pose proof (Prim2SF_valid a) as Va. pose proof (Prim2SF_valid b) as Vb.
  pose proof (Prim2SF_valid z) as Vz.
  pose proof (Prim2SF_valid (z + a)) as Vaz. pose proof (Prim2SF_valid (z + b)) as Vbz.
  rewrite FloatAxioms.add_spec in Vaz, Vbz.
  destruct (Prim2SF z) as [sz|sz| |sz mz ez] eqn:Ez; intros Hab.
  2:{ by destruct (Prim2SF a) as [[]|[]| |[] ? ?], (Prim2SF b) as [[]|[]| |[] ? ?], sz. }
  2:{ by destruct (Prim2SF a), (Prim2SF b). }
  all: destruct (Prim2SF a) as [sa|[]| |sa ma ea] eqn:Ea;
       [ | apply SFltb_neg_infinity_r | | by destruct (SF64add _ (Prim2SF b)) | ].
  all: destruct (Prim2SF b) as [sb|[]| |sb mb eb] eqn:Eb;
       try done; try apply SFltb_pos_infinity_l.
  all: by apply SFadd_keeps_order_l.
Qed.

Lemma SFmul_positive_keeps_order c x y :
  valid_binary c = true → valid_binary x = true → valid_binary y = true →
  valid_binary (SF64mul c x) = true → valid_binary (SF64mul c y) = true →
  finite_or_zero c → finite_or_zero x → finite_or_zero y →
  0 < ival c →
  SFltb y x = false → SFltb (SF64mul c y) (SF64mul c x) = false.
Proof.
  intros Vc Vx Vy Vcx Vcy Fc Fx Fy Hc Hxy.
  destruct (SFmul_ival c x) as [Nx Ix]; [done..|].
  destruct (SFmul_ival c y) as [Ny Iy]; [done..|].
  apply SFltb_false_ival in Hxy; [|done|done|by destruct x|by destruct y].
  apply SFltb_false_ival; [done..|].
  rewrite Ix, Iy. apply round_signed_mono; [lia|nia].
Qed.

Lemma mul_positive_keeps_order (c a b : float) mc ec :
  Prim2SF c = S754_finite false mc ec →
  (b <? a)%float = false → (c * b <? c * a)%float = false.
Proof.
  intros Ec. rewrite !FloatAxioms.ltb_spec, !FloatAxioms.mul_spec.
  pose proof (Prim2SF_valid a) as Va. pose proof (Prim2SF_valid b) as Vb.
  pose proof (Prim2SF_valid c) as Vc.
  pose proof (Prim2SF_valid (c * a)) as Vca. pose proof (Prim2SF_valid (c * b)) as Vcb.
  rewrite FloatAxioms.mul_spec in Vca, Vcb. rewrite Ec in *.
  assert (0 < ival (S754_finite false mc ec)) as Hc.
  { pose proof (valid_ival_bounds _ _ _ Vc). cbn [ival cond_Zopp]. lia. }
  destruct (Prim2SF a) as [sa|[]| |sa ma ea] eqn:Ea; intros Hab;
    destruct (Prim2SF b) as [sb|[]| |sb mb eb] eqn:Eb;
    try done; try apply SFltb_pos_infinity_l; try apply SFltb_neg_infinity_r;
    try apply SFltb_nan_l; try apply SFltb_nan_r.
  all: by apply SFmul_positive_keeps_order.
Qed.

(** ** Magnitudes *)

Lemma round_units_pow2 t a : 0 ≤ t → t ≤ a → round_units t (2 ^ a) = Z.min (2 ^ (a - t)) INF.
Proof.
  intros Ht Ha. unfold round_units. rewrite Z.log2_pow2 by lia.
  remember (Z.max (a - 52) t) as sh eqn:Hsh.
  replace (2 ^ a) with (2 ^ (a - sh) * 2 ^ sh)
    by (rewrite <- Z.pow_add_r by lia; f_equal; lia).
  rewrite rne_exact by lia. rewrite <- Z.pow_add_r by lia.
  do 2 f_equal. lia.
Qed.

Lemma round_units_le_pow2 t N k :
  0 ≤ t → 0 ≤ k → 0 < N → N ≤ 2 ^ (k + t) → round_units t N ≤ 2 ^ k.
Proof.
  intros Ht Hk HN Hle.
  transitivity (round_units t (2 ^ (k + t))); [by apply round_units_mono|].
  rewrite round_units_pow2 by lia. replace (k + t - t) with k by lia. lia.
Qed.

Lemma round_signed_le_pow2 t N k :
  0 ≤ t → 0 ≤ k → Z.abs N ≤ 2 ^ (k + t) → Z.abs (round_signed t N) ≤ 2 ^ k.
Proof.
  intros Ht Hk HN. assert (0 < 2 ^ k) by (apply pow2_pos; lia).
  destruct N as [|p|p]; cbn [round_signed].
  - simpl. lia.
  - pose proof (round_units_nonneg t (Zpos p) Ht ltac:(lia)).
    pose proof (round_units_le_pow2 t (Zpos p) k Ht Hk ltac:(lia) ltac:(lia)). lia.
  - pose proof (round_units_nonneg t (Zpos p) Ht ltac:(lia)).
    pose proof (round_units_le_pow2 t (Zpos p) k Ht Hk ltac:(lia) ltac:(lia)). lia.
Qed.

Lemma within_le k k' x : k ≤ k' → - 1074 ≤ k → within k x → within k' x.
Proof.
  intros Hk H0 (V & N & B). split; [done|]. split; [done|].
  transitivity (2 ^ (k + 1074)); [done|apply pow2_le; lia].
Qed.

Lemma within_finite k x : k ≤ 1023 → within k x → finite_or_zero x.
Proof.
  intros Hk (V & N & B).
  assert (2 ^ (k + 1074) < INF) as Hlt.
  { destruct (Z.lt_ge_cases (k + 1074) 0) as [Hneg|Hpos].
    - rewrite Z.pow_neg_r by done. apply pow2_pos. lia.
    - apply Z.pow_lt_mono_r; lia. }
  destruct x as [s|s| |s m e]; try done.
  cbn [ival] in B. destruct s; cbn [cond_Zopp] in B; lia.
Qed.

Lemma SFadd_within k x z :
  - 1074 ≤ k → k < 1023 → within k x → within k z →
  valid_binary (SF64add x z) = true → within (k + 1) (SF64add x z).
Proof.
  intros H0 Hk Wx Wz V.
  pose proof (within_finite k x ltac:(lia) Wx) as Fx.
  pose proof (within_finite k z ltac:(lia) Wz) as Fz.
  destruct Wx as (Vx & _ & Bx), Wz as (Vz & _ & Bz).
  destruct (SFadd_ival x z) as [N I]; [done..|].
  split; [done|]. split; [done|]. rewrite I.
  apply round_signed_le_pow2; [lia..|].
  rewrite Z.add_0_r. replace (k + 1 + 1074) with (1 + (k + 1074)) by lia.
  rewrite Z.pow_add_r by lia. lia.
Qed.

(** Scaling by a factor of magnitude at most one. *)
Lemma SFmul_within k c x :
  - 1074 ≤ k → k ≤ 1023 → within 0 c → within k x →
  valid_binary (SF64mul c x) = true → within k (SF64mul c x).
Proof.
  intros H0 Hk Wc Wx V.
  pose proof (within_finite 0 c ltac:(lia) Wc) as Fc.
  pose proof (within_finite k x ltac:(lia) Wx) as Fx.
  destruct Wc as (Vc & _ & Bc), Wx as (Vx & _ & Bx).
  destruct (SFmul_ival c x) as [N I]; [done..|].
  split; [done|]. split; [done|]. rewrite I.
  apply round_signed_le_pow2; [lia..|].
  rewrite Z.abs_mul. rewrite Z.pow_add_r by lia.
  assert (0 < 2 ^ (k + 1074)) by (apply pow2_pos; lia).
  simpl (0 + 1074) in Bc. nia.
Qed.

(** ** int64 to float64 *)

Lemma ival_SFopp x : ival (SFopp x) = - ival x.
Proof. destruct x as [s|s| |s m e]; cbn [SFopp ival]; try done; destruct s; simpl; lia. Qed.

Lemma of_uint63_ival (z : Z) :
  0 ≤ z < 2 ^ 63 →
  Prim2SF (of_uint63 (of_Z z)) ≠ S754_nan ∧
  ival (Prim2SF (of_uint63 (of_Z z))) = round_signed 0 (z * 2 ^ 1074).
Proof.
  intros Hz. rewrite FloatAxioms.of_uint63_spec, of_Z_spec.
  rewrite Z.mod_small by (change wB with (2 ^ 63); lia).
  apply (binary_normalize_ival z 0 0); lia.
Qed.

Lemma b64_of_int_ival (z : Z) :
  int64 z →
  Prim2SF (b64_of_int z) ≠ S754_nan ∧
  ival (Prim2SF (b64_of_int z)) = round_signed 0 (z * 2 ^ 1074).
Proof.
  intros [Hlo Hhi]. unfold b64_of_int.
  destruct (Z.eqb_spec z (- 2 ^ 63)) as [->|Hne].
  - split; [by vm_compute|]. by vm_compute.
  - destruct (Z.ltb_spec z 0) as [Hneg|Hpos].
    + rewrite FloatAxioms.opp_spec, ival_SFopp.
      destruct (of_uint63_ival (- z)) as [N ->]; [lia|].
      split; [by destruct (Prim2SF _)|].
      rewrite <- round_signed_opp. f_equal. lia.
    + apply of_uint63_ival. lia.
Qed.

Lemma b64_of_int_within (z : Z) : int64 z → within 63 (Prim2SF (b64_of_int z)).
Proof.
  intros Hz. destruct (b64_of_int_ival z Hz) as [N I].
  split; [apply Prim2SF_valid|]. split; [done|]. rewrite I.
  apply round_signed_le_pow2; [lia..|].
  rewrite Z.abs_mul, Z.add_0_r, Z.pow_add_r by lia.
  assert (0 < 2 ^ 1074) by (apply pow2_pos; lia).
  rewrite (Z.abs_eq (2 ^ 1074)) by lia. apply Z.mul_le_mono_nonneg_r; [lia|].
  destruct Hz. lia.
Qed.

(** The conversion is monotone. *)
Lemma b64_of_int_mono (z1 z2 : Z) :
  int64 z1 → int64 z2 → z1 ≤ z2 →
  (b64_of_int z2 <? b64_of_int z1)%float = false.
Proof.
  intros H1 H2 Hle. rewrite FloatAxioms.ltb_spec.
  destruct (b64_of_int_ival z1 H1) as [N1 I1].
  destruct (b64_of_int_ival z2 H2) as [N2 I2].
  apply SFltb_false_ival; [apply Prim2SF_valid..|done|done|].
  rewrite I1, I2. apply round_signed_mono; [lia|].
  apply Z.mul_le_mono_nonneg_r; [|done]. apply Z.lt_le_incl, pow2_pos. lia.
Qed.

(** ** Floats, through their specification *)

Lemma leb_abs_within (k : Z) (x b : float) :
  - 1074 ≤ k → Prim2SF b = S754_finite false 4503599627370496 (k - 52) →
  (abs x <=? b)%float = true → within k (Prim2SF x).
Proof.
  intros Hk Eb. rewrite FloatAxioms.leb_spec, FloatAxioms.abs_spec, Eb.
  pose proof (Prim2SF_valid x) as Vx. pose proof (Prim2SF_valid b) as Vb.
  pose proof (Prim2SF_valid (abs x)) as Va. rewrite FloatAxioms.abs_spec in Va.
  rewrite Eb in Vb. intros Hle.
  assert (Prim2SF x ≠ S754_nan) as N by (intros E; by rewrite E in Hle).
  split; [done|]. split; [done|].
  unfold SFleb in Hle. rewrite SFcompare_ival in Hle; [|done|done|by destruct (Prim2SF x)|done].
  assert (ival (SFabs (Prim2SF x)) = Z.abs (ival (Prim2SF x))) as Habs.
  { destruct (Prim2SF x) as [s|s| |s m e]; cbn [SFabs ival]; try done.
    - destruct s; cbn [cond_Zopp]; [|done]. unfold INF. rewrite Z.abs_opp. symmetry. apply Z.abs_eq. apply Z.lt_le_incl, pow2_pos. lia.
    - pose proof (valid_ival_bounds _ _ _ Vx). destruct s; cbn [cond_Zopp]; lia. }
  rewrite Habs in Hle. cbn [ival cond_Zopp] in Hle.
  change (Z.pos 4503599627370496) with (2 ^ 52) in Hle.
  apply valid_finite in Vb as [Hb _].
  rewrite <- Z.pow_add_r in Hle by lia.
  replace (52 + (k - 52 + 1074)) with (k + 1074) in Hle by lia.
  destruct (Z.compare_spec (Z.abs (ival (Prim2SF x))) (2 ^ (k + 1074))); try done; lia.
Qed.

Lemma is_finite_spec (x : float) :
  PrimFloat.is_finite x = true ↔ finite_or_zero (Prim2SF x).
Proof.
  unfold PrimFloat.is_finite, is_nan, is_infinity.
  rewrite !FloatAxioms.eqb_spec, FloatAxioms.abs_spec.
  pose proof (Prim2SF_valid x) as Vx.
  change (Prim2SF infinity) with (S754_infinity false).
  destruct (Prim2SF x) as [s|s| |s m e]; try (by destruct s); try done.
  unfold SFeqb. rewrite (SFcompare_ival (S754_finite s m e) (S754_finite s m e)) by done.
  rewrite Z.compare_refl. done.
Qed.

(** ** Rows of the two health scores *)

Section Entries.
Context {F : Type} `{!Arith F}.

Lemma ObjectiveHealth_of_sized (D H : list Z) (noise : list F) :
  length H = length D → length noise = length D →
  ObjectiveHealth_of D H noise
  = Ok (zip_with fadd
          (zip_with fadd (np_scale_int (lit 48 2) D) (np_scale_int (lit 61 2) H))
          noise).
Proof.
  intros LH LN. unfold ObjectiveHealth_of.
  rewrite ObjectiveHealth_signal_sized by congruence. cbn [result_bind].
  apply np_add_same_length. array_lengths.
Qed.

Lemma PerceivedHealth_of_sized (OH POV : list F) (E : list Z) (noise : list F) :
  length POV = length OH → length E = length OH → length noise = length OH →
  Plots.PerceivedHealth_of OH POV E noise
  = Ok (zip_with fadd
          (zip_with fadd
             (zip_with fadd (np_scale (fneg (lit 48 2)) OH)
                            (np_scale (fneg (lit 28 2)) POV))
             (np_scale_int (lit 1 2) E))
          noise).
Proof.
  intros LP LE LN. unfold Plots.PerceivedHealth_of.
  rewrite PerceivedHealth_signal_sized by congruence. cbn [result_bind].
  apply np_add_same_length. array_lengths.
Qed.

(** The entry of ObjectiveHealth in row [i]. *)
Lemma ObjectiveHealth_entry (D H : list Z) (noise OH : list F) (i : nat) (o : F) :
  length H = length D → length noise = length D →
  ObjectiveHealth_of D H noise = Ok OH → OH !! i = Some o →
  ∃ (d h : Z) (e : F),
    D !! i = Some d ∧ H !! i = Some h ∧ noise !! i = Some e ∧
    o = fadd (fadd (fmul (lit 48 2) (of_int d)) (fmul (lit 61 2) (of_int h))) e.
Proof.
  intros LH LN HOH Ho. rewrite ObjectiveHealth_of_sized in HOH by assumption.
  injection HOH as <-.
  apply lookup_zip_with_Some in Ho as (s & e & -> & Hs & He).
  apply lookup_zip_with_Some in Hs as (a & b & -> & Ha & Hb).
  rewrite lookup_np_scale_int in Ha, Hb.
  destruct (D !! i) as [d|]; [|discriminate]. destruct (H !! i) as [h|]; [|discriminate].
  injection Ha as <-. injection Hb as <-. by exists d, h, e.
Qed.

(** The entry of PerceivedHealth in row [i]. *)
Lemma PerceivedHealth_entry
    (OH POV : list F) (E : list Z) (noise PH : list F) (i : nat) (ph : F) :
  length POV = length OH → length E = length OH → length noise = length OH →
  Plots.PerceivedHealth_of OH POV E noise = Ok PH → PH !! i = Some ph →
  ∃ (o p : F) (e : Z) (ns : F),
    OH !! i = Some o ∧ POV !! i = Some p ∧ E !! i = Some e ∧ noise !! i = Some ns ∧
    ph = fadd (fadd (fadd (fmul (fneg (lit 48 2)) o) (fmul (fneg (lit 28 2)) p))
                    (fmul (lit 1 2) (of_int e)))
              ns.
Proof.
  intros LP LE LN HPH Hph. rewrite PerceivedHealth_of_sized in HPH by assumption.
  injection HPH as <-.
  apply lookup_zip_with_Some in Hph as (s & ns & -> & Hs & Hns).
  apply lookup_zip_with_Some in Hs as (t & c & -> & Ht & Hc).
  apply lookup_zip_with_Some in Ht as (a & b & -> & Ha & Hb).
  rewrite lookup_np_scale in Ha, Hb. rewrite lookup_np_scale_int in Hc.
  destruct (OH !! i) as [o|]; [|discriminate].
  destruct (POV !! i) as [p|]; [|discriminate].
  destruct (E !! i) as [e|]; [|discriminate].
  injection Ha as <-. injection Hb as <-. injection Hc as <-.
  by exists o, p, e, ns.
Qed.
End Entries.

(** ** Sign and size of the coefficients *)

Lemma coefficient_DIBEV_A :
  Prim2SF (lit (F:=float) 48 2) = S754_finite false 8646911284551352 (-54).
Proof. reflexivity. Qed.

Lemma coefficient_HYPEV_A :
  Prim2SF (lit (F:=float) 61 2) = S754_finite false 5494391545392005 (-53).
Proof. reflexivity. Qed.

Lemma coefficient_POVRATTC_A :
  Prim2SF (fneg (lit (F:=float) 28 2)) = S754_finite true 5044031582654956 (-54).
Proof. reflexivity. Qed.

Lemma coefficient_EDUCP_A :
  Prim2SF (lit (F:=float) 1 2) = S754_finite false 5764607523034235 (-59).
Proof. reflexivity. Qed.

Lemma leb_ltb (a b : float) : (a <=? b)%float = true → (b <? a)%float = false.
Proof.
  rewrite FloatAxioms.leb_spec, FloatAxioms.ltb_spec. unfold SFleb.
  pose proof (Prim2SF_valid a) as Va. pose proof (Prim2SF_valid b) as Vb.
  intros Hle.
  assert (Prim2SF a ≠ S754_nan) as Na by (intros E; by rewrite E in Hle).
  assert (Prim2SF b ≠ S754_nan) as Nb
    by (intros E; rewrite E in Hle; by destruct (Prim2SF a)).
  apply SFltb_false_ival; [done..|].
  rewrite SFcompare_ival in Hle by done.
  destruct (Z.compare_spec (ival (Prim2SF a)) (ival (Prim2SF b))); [lia|lia|done].
Qed.

Lemma mul_within (k : Z) (c x : float) :
  - 1074 ≤ k → k ≤ 1023 → within 0 (Prim2SF c) → within k (Prim2SF x) →
  within k (Prim2SF (c * x)) ∧
  ival (Prim2SF (c * x)) = round_signed 1074 (ival (Prim2SF c) * ival (Prim2SF x)).
Proof.
  intros H0 Hk Wc Wx. pose proof (Prim2SF_valid (c * x)) as V.
  rewrite FloatAxioms.mul_spec in *. split; [by apply SFmul_within|].
  apply SFmul_ival; [apply Wc|apply Wx|by apply (within_finite 0)|by apply (within_finite k)].
Qed.

Lemma add_within (k : Z) (x z : float) :
  - 1074 ≤ k → k < 1023 → within k (Prim2SF x) → within k (Prim2SF z) →
  within (k + 1) (Prim2SF (x + z)) ∧
  ival (Prim2SF (x + z)) = round_signed 0 (ival (Prim2SF x) + ival (Prim2SF z)).
Proof.
  intros H0 Hk Wx Wz. pose proof (Prim2SF_valid (x + z)) as V.
  rewrite FloatAxioms.add_spec in *. split; [by apply SFadd_within|].
  apply SFadd_ival; [apply Wx|apply Wz|apply (within_finite k); [lia|done]..].
Qed.

Lemma within_ltb_false (k k' : Z) (a b : float) :
  within k (Prim2SF a) → within k' (Prim2SF b) →
  ival (Prim2SF a) ≤ ival (Prim2SF b) → (b <? a)%float = false.
Proof.
  intros (Va & Na & _) (Vb & Nb & _) Hle. rewrite FloatAxioms.ltb_spec.
  by apply SFltb_false_ival.
Qed.

(** Every coefficient of lines 17 and 24 to 26 is at most one in magnitude. *)
Lemma coefficients_within :
  within 0 (Prim2SF (lit (F:=float) 48 2)) ∧
  within 0 (Prim2SF (lit (F:=float) 61 2)) ∧
  within 0 (Prim2SF (fneg (lit (F:=float) 48 2))) ∧
  within 0 (Prim2SF (fneg (lit (F:=float) 28 2))) ∧
  within 0 (Prim2SF (lit (F:=float) 1 2)).
Proof.
  repeat split; try apply Prim2SF_valid; try (by vm_compute); vm_compute; discriminate.
Qed.

(** Line 17 on one row, before the noise is added: the value is monotone
    in both indicators and small. *)
Lemma ObjectiveHealth_signal_mono (d d' h h' : Z) :
  int64 d → int64 d' → int64 h → int64 h' → d ≤ d' → h ≤ h' →
  ((lit 48 2 * b64_of_int d' + lit 61 2 * b64_of_int h' <?
    lit 48 2 * b64_of_int d + lit 61 2 * b64_of_int h)%float = false).
Proof.
  intros Id Id' Ih Ih' Hd Hh.
  destruct coefficients_within as (W48 & W61 & _).
  destruct (mul_within 63 _ _ ltac:(lia) ltac:(lia) W48 (b64_of_int_within d Id)) as [Wa Ia].
  destruct (mul_within 63 _ _ ltac:(lia) ltac:(lia) W48 (b64_of_int_within d' Id')) as [Wa' Ia'].
  destruct (mul_within 63 _ _ ltac:(lia) ltac:(lia) W61 (b64_of_int_within h Ih)) as [Wb Ib].
  destruct (mul_within 63 _ _ ltac:(lia) ltac:(lia) W61 (b64_of_int_within h' Ih')) as [Wb' Ib'].
  destruct (add_within 63 _ _ ltac:(lia) ltac:(lia) Wa Wb) as [Ws Is].
  destruct (add_within 63 _ _ ltac:(lia) ltac:(lia) Wa' Wb') as [Ws' Is'].
  apply (within_ltb_false _ _ _ _ Ws Ws'). rewrite Is, Is'.
  destruct (b64_of_int_ival d Id) as [_ Jd]. destruct (b64_of_int_ival d' Id') as [_ Jd'].
  destruct (b64_of_int_ival h Ih) as [_ Jh]. destruct (b64_of_int_ival h' Ih') as [_ Jh'].
  assert (0 < 2 ^ 1074) as Hp by (apply pow2_pos; lia).
  assert (ival (Prim2SF (b64_of_int d)) ≤ ival (Prim2SF (b64_of_int d'))) as Ld.
  { rewrite Jd, Jd'. apply round_signed_mono; [lia|nia]. }
  assert (ival (Prim2SF (b64_of_int h)) ≤ ival (Prim2SF (b64_of_int h'))) as Lh.
  { rewrite Jh, Jh'. apply round_signed_mono; [lia|nia]. }
  assert (0 ≤ ival (Prim2SF (lit (F:=float) 48 2))) as P48 by (by vm_compute).
  assert (0 ≤ ival (Prim2SF (lit (F:=float) 61 2))) as P61 by (by vm_compute).
  apply round_signed_mono; [lia|]. rewrite Ia, Ia', Ib, Ib'.
  apply Z.add_le_mono; (apply round_signed_mono; [lia|]);
    by apply Z.mul_le_mono_nonneg_l.
Qed.

(** Lines 24 to 27 on one row: the value never goes up with
    ObjectiveHealth. *)
Lemma PerceivedHealth_row_ObjectiveHealth (o o' p c n : float) :
  (o' <? o)%float = false →
  ((- lit 48 2 * o + p + c + n <? - lit 48 2 * o' + p + c + n)%float = false).
Proof.
  intros Ho. do 3 apply add_keeps_order.
  eapply mul_negative_reverses_order; [apply coefficient_negative|exact Ho].
Qed.

(** X6: ObjectiveHealth never decreases with a diagnosis.  In binary64,
    of two rows of line 17 with the same noise entry, the row whose
    DIBEV_A and HYPEV_A are both at least the other's never has the lower
    ObjectiveHealth (coefficients 0.48 and 0.61 are positive, the int64 to
    float64 conversion and each rounded product and sum keep the order). *)
Theorem ObjectiveHealth_never_decreasing
    (D H : list Z) (noise OH : list float) (i j : nat)
    (di dj hi hj : Z) (oi oj : float) :
  length H = length D → length noise = length D →
  ObjectiveHealth_of D H noise = Ok OH →
  D !! i = Some di → D !! j = Some dj → H !! i = Some hi → H !! j = Some hj →
  int64 di → int64 dj → int64 hi → int64 hj →
  noise !! i = noise !! j →
  OH !! i = Some oi → OH !! j = Some oj →
  di ≤ dj → hi ≤ hj → (oj <? oi)%float = false.
Proof.
  intros LH LN HOH Hdi Hdj Hhi Hhj Idi Idj Ihi Ihj HN Hoi Hoj Hd Hh.
  destruct (ObjectiveHealth_entry D H noise OH i oi LH LN HOH Hoi)
    as (d & h & e & Ed & Eh & Ee & ->).
  destruct (ObjectiveHealth_entry D H noise OH j oj LH LN HOH Hoj)
    as (d' & h' & e' & Ed' & Eh' & Ee' & ->).
  assert (d = di) as -> by congruence. assert (d' = dj) as -> by congruence.
  assert (h = hi) as -> by congruence. assert (h' = hj) as -> by congruence.
  assert (e' = e) as -> by congruence.
  cbn [fadd fmul of_int binary64].
  apply add_keeps_order. by apply ObjectiveHealth_signal_mono.
Qed.

(** X7: PerceivedHealth never increases with POVRATTC_A.  In binary64, of
    two rows of lines 23 to 28 that agree on ObjectiveHealth, EDUCP_A and
    the noise entry, the row with the higher or equal POVRATTC_A never has
    the higher PerceivedHealth (coefficient -0.28), whatever the other
    entries are, NaN and infinities included. *)
Theorem PerceivedHealth_never_increasing_in_POVRATTC_A
    (OH POV : list float) (E : list Z) (noise PH : list float) (i j : nat)
    (pvi pvj pi pj : float) :
  length POV = length OH → length E = length OH → length noise = length OH →
  Plots.PerceivedHealth_of OH POV E noise = Ok PH →
  POV !! i = Some pvi → POV !! j = Some pvj →
  OH !! i = OH !! j → E !! i = E !! j → noise !! i = noise !! j →
  PH !! i = Some pi → PH !! j = Some pj →
  (pvi <=? pvj)%float = true → (pi <? pj)%float = false.
Proof.
  intros LP LE LN HPH Hpvi Hpvj HO HE HN Hpi Hpj Hle.
  destruct (PerceivedHealth_entry OH POV E noise PH i pi LP LE LN HPH Hpi)
    as (o & p & e & ns & Eo & Ep & Ee & En & ->).
  destruct (PerceivedHealth_entry OH POV E noise PH j pj LP LE LN HPH Hpj)
    as (o' & p' & e' & ns' & Eo' & Ep' & Ee' & En' & ->).
  assert (o' = o) as -> by congruence. assert (e' = e) as -> by congruence.
  assert (ns' = ns) as -> by congruence.
  assert (p = pvi) as -> by congruence. assert (p' = pvj) as -> by congruence.
  cbn [fadd fmul of_int binary64].
  do 2 apply add_keeps_order. apply add_keeps_order_l.
  eapply mul_negative_reverses_order; [apply coefficient_POVRATTC_A|].
  by apply leb_ltb.
Qed.

(** X8: PerceivedHealth never decreases with EDUCP_A.  In binary64, of
    two rows of lines 23 to 28 that agree on ObjectiveHealth, POVRATTC_A
    and the noise entry, the row with the higher or equal EDUCP_A never
    has the lower PerceivedHealth (coefficient 0.01). *)
Theorem PerceivedHealth_never_decreasing_in_EDUCP_A
    (OH POV : list float) (E : list Z) (noise PH : list float) (i j : nat)
    (ei ej : Z) (pi pj : float) :
  length POV = length OH → length E = length OH → length noise = length OH →
  Plots.PerceivedHealth_of OH POV E noise = Ok PH →
  E !! i = Some ei → E !! j = Some ej → int64 ei → int64 ej →
  OH !! i = OH !! j → POV !! i = POV !! j → noise !! i = noise !! j →
  PH !! i = Some pi → PH !! j = Some pj →
  ei ≤ ej → (pj <? pi)%float = false.
Proof.
  intros LP LE LN HPH Hei Hej Iei Iej HO HP HN Hpi Hpj Hle.
  destruct (PerceivedHealth_entry OH POV E noise PH i pi LP LE LN HPH Hpi)
    as (o & p & e & ns & Eo & Ep & Ee & En & ->).
  destruct (PerceivedHealth_entry OH POV E noise PH j pj LP LE LN HPH Hpj)
    as (o' & p' & e' & ns' & Eo' & Ep' & Ee' & En' & ->).
  assert (o' = o) as -> by congruence. assert (p' = p) as -> by congruence.
  assert (ns' = ns) as -> by congruence.
  assert (e = ei) as -> by congruence. assert (e' = ej) as -> by congruence.
  cbn [fadd fmul of_int binary64].
  apply add_keeps_order, add_keeps_order_l.
  eapply mul_positive_keeps_order; [apply coefficient_EDUCP_A|].
  by apply b64_of_int_mono.
Qed.

(** X9: a diagnosis never raises PerceivedHealth.  Line 17 feeds line 24:
    in binary64, of two rows that agree on both noise entries, POVRATTC_A
    and EDUCP_A, the row whose DIBEV_A and HYPEV_A are both at least the
    other's never has the higher PerceivedHealth (positive coefficients in
    line 17, then -0.48 in line 24). *)
Theorem PerceivedHealth_never_increasing_in_diagnoses
    (D H : list Z) (noise1 OH POV : list float) (E : list Z) (noise2 PH : list float)
    (i j : nat) (di dj hi hj : Z) (pi pj : float) :
  length H = length D → length noise1 = length D →
  ObjectiveHealth_of D H noise1 = Ok OH →
  length POV = length OH → length E = length OH → length noise2 = length OH →
  Plots.PerceivedHealth_of OH POV E noise2 = Ok PH →
  D !! i = Some di → D !! j = Some dj → H !! i = Some hi → H !! j = Some hj →
  int64 di → int64 dj → int64 hi → int64 hj →
  noise1 !! i = noise1 !! j → POV !! i = POV !! j → E !! i = E !! j →
  noise2 !! i = noise2 !! j →
  PH !! i = Some pi → PH !! j = Some pj →
  di ≤ dj → hi ≤ hj → (pi <? pj)%float = false.
Proof.
  intros LH LN1 HOH LP LE LN2 HPH Hdi Hdj Hhi Hhj Idi Idj Ihi Ihj HN1 HP HE HN2
         Hpi Hpj Hd Hh.
  destruct (PerceivedHealth_entry OH POV E noise2 PH i pi LP LE LN2 HPH Hpi)
    as (o & p & e & ns & Eo & Ep & Ee & En & ->).
  destruct (PerceivedHealth_entry OH POV E noise2 PH j pj LP LE LN2 HPH Hpj)
    as (o' & p' & e' & ns' & Eo' & Ep' & Ee' & En' & ->).
  assert (p' = p) as -> by congruence. assert (e' = e) as -> by congruence.
  assert (ns' = ns) as -> by congruence.
  destruct (ObjectiveHealth_entry D H noise1 OH i o LH LN1 HOH Eo)
    as (d & h & n & Ed & Eh & Enn & ->).
  destruct (ObjectiveHealth_entry D H noise1 OH j o' LH LN1 HOH Eo')
    as (d' & h' & n' & Ed' & Eh' & Enn' & ->).
  assert (d = di) as -> by congruence. assert (d' = dj) as -> by congruence.
  assert (h = hi) as -> by congruence. assert (h' = hj) as -> by congruence.
  assert (n' = n) as -> by congruence.
  cbn [fadd fmul fneg of_int binary64].
  apply PerceivedHealth_row_ObjectiveHealth.
  apply add_keeps_order. by apply ObjectiveHealth_signal_mono.
Qed.

(** X10: PerceivedHealth in terms of the draws.  Computed in exact
    arithmetic, lines 17 and 23 to 28 together give, in every row,
    PerceivedHealth = -0.2304 * DIBEV_A - 0.2928 * HYPEV_A
    - 0.28 * POVRATTC_A + 0.01 * EDUCP_A - 0.48 * (noise of ObjectiveHealth)
    + (noise of PerceivedHealth). *)
Theorem PerceivedHealth_reduced_form
    (D H : list Z) (noise1 OH POV : list Q) (E : list Z) (noise2 PH : list Q)
    (i : nat) (d h e : Z) (n1 p n2 ph : Q) :
  length H = length D → length noise1 = length D →
  ObjectiveHealth_of D H noise1 = Ok OH →
  length POV = length OH → length E = length OH → length noise2 = length OH →
  Plots.PerceivedHealth_of OH POV E noise2 = Ok PH →
  D !! i = Some d → H !! i = Some h → noise1 !! i = Some n1 →
  POV !! i = Some p → E !! i = Some e → noise2 !! i = Some n2 →
  PH !! i = Some ph →
  (ph == - (2304 # 10000) * inject_Z d - (2928 # 10000) * inject_Z h
         - (28 # 100) * p + (1 # 100) * inject_Z e - (48 # 100) * n1 + n2)%Q.
Proof.
  intros LH LN1 HOH LP LE LN2 HPH Hd Hh Hn1 Hp He Hn2 Hph.
  destruct (PerceivedHealth_entry OH POV E noise2 PH i ph LP LE LN2 HPH Hph)
    as (o & p' & e' & ns & Eo & Ep & Ee & En & ->).
  destruct (ObjectiveHealth_entry D H noise1 OH i o LH LN1 HOH Eo)
    as (d' & h' & n & Ed & Eh & Enn & ->).
  assert (d' = d) as -> by congruence. assert (h' = h) as -> by congruence.
  assert (n = n1) as -> by congruence. assert (p' = p) as -> by congruence.
  assert (e' = e) as -> by congruence. assert (ns = n2) as -> by congruence.
  cbn [fadd fmul fneg of_int lit exact].
  change (Q_lit 48 2) with (48 # 100). change (Q_lit 61 2) with (61 # 100).
  change (Q_lit 28 2) with (28 # 100). change (Q_lit 1 2) with (1 # 100).
  lra.
Qed.

(** X11: the two health scores are finite.  In binary64, when DIBEV_A,
    HYPEV_A and EDUCP_A are int64 arrays and every entry of POVRATTC_A and
    of the two noise arrays is a number of magnitude at most 2^1000, every
    entry of ObjectiveHealth and of PerceivedHealth is finite: no sum or
    product of lines 17 and 23 to 28 overflows or yields NaN. *)
Theorem health_scores_finite
    (D H : list Z) (noise1 OH POV : list float) (E : list Z) (noise2 PH : list float) :
  length H = length D → length noise1 = length D →
  ObjectiveHealth_of D H noise1 = Ok OH →
  length POV = length OH → length E = length OH → length noise2 = length OH →
  Plots.PerceivedHealth_of OH POV E noise2 = Ok PH →
  Forall int64 D → Forall int64 H → Forall int64 E →
  Forall moderate noise1 → Forall moderate POV → Forall moderate noise2 →
  Forall (λ x, PrimFloat.is_finite x = true) OH ∧
  Forall (λ x, PrimFloat.is_finite x = true) PH.
Proof.
  intros LH LN1 HOH LP LE LN2 HPH ID IH IE M1 MP M2.
  destruct coefficients_within as (W48 & W61 & Wn48 & Wn28 & W1).
  assert (∀ x, moderate x → within 1000 (Prim2SF x)) as Hmod.
  { intros x Hx. by apply (leb_abs_within 1000 x 0x1p1000%float). }
  assert (∀ i o, OH !! i = Some o → within 1001 (Prim2SF o)) as HOHw.
  { intros i o Ho.
    destruct (ObjectiveHealth_entry D H noise1 OH i o LH LN1 HOH Ho)
      as (d & h & n & Ed & Eh & En & ->).
    pose proof (b64_of_int_within d (proj1 (Forall_lookup _ _) ID _ _ Ed)) as Wd.
    pose proof (b64_of_int_within h (proj1 (Forall_lookup _ _) IH _ _ Eh)) as Wh.
    pose proof (Hmod n (proj1 (Forall_lookup _ _) M1 _ _ En)) as Wn.
    cbn [fadd fmul of_int binary64].
    destruct (mul_within 63 _ _ ltac:(lia) ltac:(lia) W48 Wd) as [Wa _].
    destruct (mul_within 63 _ _ ltac:(lia) ltac:(lia) W61 Wh) as [Wb _].
    destruct (add_within 63 _ _ ltac:(lia) ltac:(lia) Wa Wb) as [Ws _].
    apply (within_le _ 1000) in Ws; [|lia..].
    by destruct (add_within 1000 _ _ ltac:(lia) ltac:(lia) Ws Wn) as [Wo _]. }
  split; apply Forall_lookup; intros i x Hx; apply is_finite_spec.
  - apply (within_finite 1001); [lia|]. by apply (HOHw i).
  - destruct (PerceivedHealth_entry OH POV E noise2 PH i x LP LE LN2 HPH Hx)
      as (o & p & e & ns & Eo & Ep & Ee & En & ->).
    pose proof (HOHw i o Eo) as Wo.
    pose proof (Hmod p (proj1 (Forall_lookup _ _) MP _ _ Ep)) as Wp.
    pose proof (b64_of_int_within e (proj1 (Forall_lookup _ _) IE _ _ Ee)) as We.
    pose proof (Hmod ns (proj1 (Forall_lookup _ _) M2 _ _ En)) as Wn.
    cbn [fadd fmul of_int binary64].
    destruct (mul_within 1001 _ _ ltac:(lia) ltac:(lia) Wn48 Wo) as [Wa _].
    destruct (mul_within 1000 _ _ ltac:(lia) ltac:(lia) Wn28 Wp) as [Wb _].
    apply (within_le _ 1001) in Wb; [|lia..].
    destruct (add_within 1001 _ _ ltac:(lia) ltac:(lia) Wa Wb) as [Ws _].
    destruct (mul_within 63 _ _ ltac:(lia) ltac:(lia) W1 We) as [Wc _].
    apply (within_le _ 1002) in Wc; [|lia..].
    destruct (add_within 1002 _ _ ltac:(lia) ltac:(lia) Ws Wc) as [Wt _].
    apply (within_le _ 1003) in Wn; [|lia..].
    destruct (add_within 1003 _ _ ltac:(lia) ltac:(lia) Wt Wn) as [Wr _].
    by apply (within_finite 1004).
Qed.

(** ** The further theorems on concrete data *)

Lemma Ref_backend_pyplot_complete {F} : @pyplot_complete F Ref.backend.
Proof. intros c d. by eexists. Qed.

Lemma Ref_headless_read_only {F} : @plots_read_only F Ref.headless.
Proof. exact Ref_backend_read_only. Qed.

Lemma Ref_headless_visualize_raises {F} `{!Arith F}
    (d : DataFrame F) (w : @World F Ref.generator Ref.headless) :
  required_columns d →
  @run F Ref.generator Ref.headless _ (Plots.visualize d) w
  = Raised (ValueError "no display").
Proof.
  intros ([p Hp] & [o Ho] & _ & [e He]).
  unfold Plots.visualize. cbn [prog_bind call run handle].
  cbn [lib_lmplot lib_pyplot Ref.headless Ref.backend Plots.plot1 lm_x lm_y lm_hue].
  unfold Ref.lookup_column. rewrite Hp, Ho, He. reflexivity.
Qed.

Lemma Ref_headless_script_raises :
  run Plots.script (Ref.world_headless (F:=float)) = Raised (ValueError "no display").
Proof.
  destruct (@generate_table float _ Ref.generator Ref.headless Ref.world_headless
              Ref_generator_sizes)
    as (v & d & w1 & _ & _ & _ & Hgen & _ & _ & _ & _ & Hcols).
  unfold Plots.script. rewrite run_bind, Hgen. cbn [result_bind].
  apply Ref_headless_visualize_raises. exact (generated_table_required v d Hcols).
Qed.

Lemma script_completes_witness :
  @numpy_sizes float Ref.generator ∧ @plots_read_only float Ref.backend ∧
  @plots_complete float Ref.backend ∧ @pyplot_complete float Ref.backend ∧
  ∃ d w', run Plots.script (Ref.world0 (F:=float)) = Ok (d, w') ∧
          value_of (run Plots.generate (Ref.world0 (F:=float))) = Ok d ∧
          rng w' = pos 10 (rng (Ref.world0 (F:=float))) ∧
          trace Plots.script (Ref.world0 (F:=float)) =
            schedule (rng (Ref.world0 (F:=float))) ++
            issued 19 (plot_calls d) (pos 10 (rng (Ref.world0 (F:=float)))).
Proof.
  split; [apply Ref_generator_sizes|]. split; [apply Ref_backend_read_only|].
  split; [apply Ref_backend_complete|]. split; [apply Ref_backend_pyplot_complete|].
  apply (script_completes Ref.world0 Ref_generator_sizes Ref_backend_read_only
           Ref_backend_complete Ref_backend_pyplot_complete).
Defined.

Lemma script_raises_only_from_plotting_witness :
  @numpy_sizes float Ref.generator ∧ @plots_read_only float Ref.headless ∧
  run Plots.script (Ref.world_headless (F:=float)) = Raised (ValueError "no display") ∧
  ∃ d k ev (disp : @Display float Ref.headless),
    value_of (run Plots.generate (Ref.world_headless (F:=float))) = Ok d ∧
    plot_calls d !! k = Some ev ∧
    raises_at ev (pos 10 (rng (Ref.world_headless (F:=float)))) disp
              (ValueError "no display") ∧
    trace Plots.script (Ref.world_headless (F:=float)) =
      schedule (rng (Ref.world_headless (F:=float))) ++
      issued (S k) (plot_calls d) (pos 10 (rng (Ref.world_headless (F:=float)))).
Proof.
  split; [apply Ref_generator_sizes|]. split; [apply Ref_headless_read_only|].
  split; [apply Ref_headless_script_raises|].
  apply (script_raises_only_from_plotting Ref.world_headless _ Ref_generator_sizes
           Ref_headless_read_only Ref_headless_script_raises).
Defined.

Lemma visualizer_call_order_witness :
  @plots_read_only float Ref.backend ∧
  (∀ d' w', run (Plots.visualize Ref.table1) (Ref.world0 (F:=float)) = Ok (d', w') →
     trace (Plots.visualize Ref.table1) (Ref.world0 (F:=float))
       = issued 19 (plot_calls Ref.table1) (rng (Ref.world0 (F:=float))) ∧
     rng w' = rng (Ref.world0 (F:=float))) ∧
  (∀ e, run (Plots.visualize Ref.table1) (Ref.world0 (F:=float)) = Raised e →
     ∃ k ev (disp : @Display float Ref.backend),
                  plot_calls Ref.table1 !! k = Some ev ∧
                  raises_at ev (rng (Ref.world0 (F:=float))) disp e ∧
                  trace (Plots.visualize Ref.table1) (Ref.world0 (F:=float))
                    = issued (S k) (plot_calls Ref.table1) (rng (Ref.world0 (F:=float)))).
Proof.
  split; [apply Ref_backend_read_only|].
  apply (visualizer_call_order Ref.table1 Ref.world0 Ref_backend_read_only).
Defined.

Lemma visualizer_completes_witness :
  @plots_read_only float Ref.backend ∧ @plots_complete float Ref.backend ∧
  @pyplot_complete float Ref.backend ∧ frame_ok Ref.table1 ∧
  (0 < nrows Ref.table1)%nat ∧ required_columns Ref.table1 ∧
  ∃ w', run (Plots.visualize Ref.table1) (Ref.world1 (F:=float)) = Ok (Ref.table1, w') ∧
        rng w' = rng (Ref.world1 (F:=float)) ∧
        trace (Plots.visualize Ref.table1) (Ref.world1 (F:=float))
          = issued 19 (plot_calls Ref.table1) (rng (Ref.world1 (F:=float))).
Proof.
  split; [apply Ref_backend_read_only|]. split; [apply Ref_backend_complete|].
  split; [apply Ref_backend_pyplot_complete|]. split; [apply Ref_table1_ok|].
  split; [apply Nat.lt_0_succ|]. split; [apply Ref_table1_required|].
  apply (visualizer_completes Ref.table1 Ref.world1 Ref_backend_read_only
           Ref_backend_complete Ref_backend_pyplot_complete Ref_table1_ok
           (Nat.lt_0_succ 1) Ref_table1_required).
Defined.

Lemma plots_read_simulated_arrays_witness :
  @numpy_sizes float Ref.generator ∧
  ∃ v d w', run Plots.simulate (Ref.world0 (F:=float)) = Ok (v, w') ∧
    run Plots.generate (Ref.world0 (F:=float)) = Ok (d, w') ∧
    lmplot_inputs Plots.plot1 d =
      (Some (FloatCol (Plots.POVRATTC_A v)), Some (FloatCol (Plots.ObjectiveHealth v)),
       Some (IntCol (Plots.EDUCP_A v))) ∧
    regplot_inputs Plots.plot2 d =
      (Some (FloatCol (Plots.ObjectiveHealth v)),
       Some (FloatCol (Plots.PerceivedHealth v))) ∧
    lmplot_inputs Plots.plot3 d =
      (Some (FloatCol (Plots.POVRATTC_A v)), Some (FloatCol (Plots.PerceivedHealth v)),
       Some (IntCol (Plots.EDUCP_A v))) ∧
    length (Plots.POVRATTC_A v) = 1000%nat ∧ length (Plots.EDUCP_A v) = 1000%nat ∧
    length (Plots.ObjectiveHealth v) = 1000%nat ∧
    length (Plots.PerceivedHealth v) = 1000%nat.
Proof.
  split; [apply Ref_generator_sizes|].
  apply (plots_read_simulated_arrays Ref.world0 Ref_generator_sizes).
Defined.

Lemma int64_0 : int64 0.
Proof. unfold int64. lia. Qed.
Lemma int64_1 : int64 1.
Proof. unfold int64. lia. Qed.
Lemma int64_4 : int64 4.
Proof. unfold int64. lia. Qed.

Lemma ObjectiveHealth_never_decreasing_witness :
  ∃ OH oi oj,
    ObjectiveHealth_of [0; 1] [0; 1] [0x1p-1; 0x1p-1]%float = Ok OH ∧
    OH !! 0%nat = Some oi ∧ OH !! 1%nat = Some oj ∧ (oj <? oi)%float = false.
Proof.
  exists [0x1p-1; 0x1.970a3d70a3d7p+0]%float, 0x1p-1%float, 0x1.970a3d70a3d7p+0%float.
  split; [reflexivity|]. split; [reflexivity|]. split; [reflexivity|].
  apply (ObjectiveHealth_never_decreasing [0; 1] [0; 1] [0x1p-1; 0x1p-1]%float
           [0x1p-1; 0x1.970a3d70a3d7p+0]%float 0 1 0 1 0 1 _ _
           eq_refl eq_refl eq_refl eq_refl eq_refl eq_refl eq_refl
           int64_0 int64_1 int64_0 int64_1 eq_refl eq_refl eq_refl); lia.
Defined.

Lemma int64_3 : int64 3.
Proof. unfold int64. lia. Qed.

Lemma PerceivedHealth_never_increasing_in_POVRATTC_A_witness :
  ∃ PH pi pj,
    Plots.PerceivedHealth_of [one; one] [one; two] [3; 3] [zero; zero] = Ok PH ∧
    (one <=? two)%float = true ∧
    PH !! 0%nat = Some pi ∧ PH !! 1%nat = Some pj ∧ (pi <? pj)%float = false.
Proof.
  exists [(-0x1.75c28f5c28f5cp-1)%float; (-0x1.028f5c28f5c29p+0)%float],
         (-0x1.75c28f5c28f5cp-1)%float, (-0x1.028f5c28f5c29p+0)%float.
  split; [reflexivity|]. split; [reflexivity|]. split; [reflexivity|].
  split; [reflexivity|].
  exact (PerceivedHealth_never_increasing_in_POVRATTC_A
           [one; one] [one; two] [3; 3] [zero; zero]
           [(-0x1.75c28f5c28f5cp-1)%float; (-0x1.028f5c28f5c29p+0)%float]
           0 1 one two _ _
           eq_refl eq_refl eq_refl eq_refl eq_refl eq_refl eq_refl eq_refl eq_refl
           eq_refl eq_refl eq_refl).
Defined.

Lemma PerceivedHealth_never_decreasing_in_EDUCP_A_witness :
  ∃ PH pi pj,
    Plots.PerceivedHealth_of [one; one] [two; two] [1; 4] [zero; zero] = Ok PH ∧
    PH !! 0%nat = Some pi ∧ PH !! 1%nat = Some pj ∧ (pj <? pi)%float = false.
Proof.
  exists [(-0x1.07ae147ae147bp+0)%float; (-0x1p+0)%float],
         (-0x1.07ae147ae147bp+0)%float, (-0x1p+0)%float.
  split; [reflexivity|]. split; [reflexivity|]. split; [reflexivity|].
  refine (PerceivedHealth_never_decreasing_in_EDUCP_A
           [one; one] [two; two] [1; 4] [zero; zero]
           [(-0x1.07ae147ae147bp+0)%float; (-0x1p+0)%float]
           0 1 1 4 _ _
           eq_refl eq_refl eq_refl eq_refl eq_refl eq_refl int64_1 int64_4
           eq_refl eq_refl eq_refl eq_refl eq_refl _). lia.
Defined.

Lemma PerceivedHealth_never_increasing_in_diagnoses_witness :
  ∃ OH PH pi pj,
    ObjectiveHealth_of [0; 1] [0; 1] [0x1p-1; 0x1p-1]%float = Ok OH ∧
    Plots.PerceivedHealth_of OH [two; two] [3; 3] [zero; zero] = Ok PH ∧
    PH !! 0%nat = Some pi ∧ PH !! 1%nat = Some pj ∧ (pi <? pj)%float = false.
Proof.
  exists [0x1p-1; 0x1.970a3d70a3d7p+0]%float,
         [(-0x1.8a3d70a3d70a4p-1)%float; (-0x1.4b0f27bb2fec5p+0)%float],
         (-0x1.8a3d70a3d70a4p-1)%float, (-0x1.4b0f27bb2fec5p+0)%float.
  split; [reflexivity|]. split; [reflexivity|]. split; [reflexivity|].
  split; [reflexivity|].
  refine (PerceivedHealth_never_increasing_in_diagnoses
           [0; 1] [0; 1] [0x1p-1; 0x1p-1]%float [0x1p-1; 0x1.970a3d70a3d7p+0]%float
           [two; two] [3; 3] [zero; zero]
           [(-0x1.8a3d70a3d70a4p-1)%float; (-0x1.4b0f27bb2fec5p+0)%float]
           0 1 0 1 0 1 _ _
           eq_refl eq_refl eq_refl eq_refl eq_refl eq_refl eq_refl
           eq_refl eq_refl eq_refl eq_refl int64_0 int64_1 int64_0 int64_1
           eq_refl eq_refl eq_refl eq_refl eq_refl eq_refl _ _); lia.
Defined.

Lemma PerceivedHealth_reduced_form_witness :
  ∃ OH PH ph,
    ObjectiveHealth_of (F:=Q) [1] [0] [(1 # 2)%Q] = Ok OH ∧
    Plots.PerceivedHealth_of OH [2%Q] [3] [(1 # 4)%Q] = Ok PH ∧
    PH !! 0%nat = Some ph ∧
    (ph == - (2304 # 10000) * inject_Z 1 - (2928 # 10000) * inject_Z 0
           - (28 # 100) * 2 + (1 # 100) * inject_Z 3 - (48 # 100) * (1 # 2) + (1 # 4))%Q.
Proof.
  eexists _, _, _.
  split; [reflexivity|]. split; [reflexivity|]. split; [reflexivity|].
  exact (PerceivedHealth_reduced_form [1] [0] [(1 # 2)%Q] _ [2%Q] [3] [(1 # 4)%Q] _
           0 1 0 3 (1 # 2)%Q 2%Q (1 # 4)%Q _
           eq_refl eq_refl eq_refl eq_refl eq_refl eq_refl eq_refl
           eq_refl eq_refl eq_refl eq_refl eq_refl eq_refl eq_refl).
Defined.

Lemma health_scores_finite_witness :
  ∃ OH PH,
    ObjectiveHealth_of [0; 1] [1; 0] [0x1p-1; -0x1p-1]%float = Ok OH ∧
    Plots.PerceivedHealth_of OH [two; one] [1; 4] [zero; one] = Ok PH ∧
    Forall (λ x, PrimFloat.is_finite x = true) OH ∧
    Forall (λ x, PrimFloat.is_finite x = true) PH.
Proof.
  eexists _, _.
  split; [reflexivity|]. split; [reflexivity|].
  apply (health_scores_finite [0; 1] [1; 0] [0x1p-1; -0x1p-1]%float _
           [two; one] [1; 4] [zero; one] _
           eq_refl eq_refl eq_refl eq_refl eq_refl eq_refl eq_refl);
    repeat constructor; unfold int64; lia.
Defined.


